(** * crawl_data.py: a TMDB catalogue crawler, embedded and verified

    The script fetches paginated movie listings from four endpoints,
    drops records whose identifier was already seen, enriches every
    surviving record with credits, and writes one CSV row per movie.

    The embedding follows the Python text:
    - JSON payloads are dynamically typed values ([pyval]); every
      operation the script applies to them ([x[k]], [x.get(k)], [k in x],
      iteration, [", ".join]) is a function into [result], which is
      either a value or the exception Python raises;
    - the script's effects (HTTP requests with the response received,
      sleeps, prints, the final CSV write) are events; a computation
      reads the history of events so far and returns its outcome
      together with the events it emitted;
    - the remote service is a parameter [server]: any function from the
      history and the request to a response. *)

From stdpp Require Import gmap strings list sorting.
From Stdlib Require Import ZArith Ascii.

Open Scope Z_scope.

(** ** Python values *)

(** What [json.loads] can produce: [None], booleans, integers, strings,
    lists and dictionaries with string keys (in insertion order, keys
    pairwise distinct).  Strings are the UTF-8 encoding of the Python
    [str].  JSON numbers with a fractional part are not represented:
    the script only copies them ([vote_average]). *)
#[warnings="-register-all"]
Inductive pyval : Type :=
| PNone
| PBool (b : bool)
| PInt (n : Z)
| PStr (s : string)
| PList (items : list pyval)
| PDict (entries : list (string * pyval)).

(** The exceptions the script's own expressions can raise.  [KeyError]
    carries the missing key. *)
Inductive exn : Type :=
| KeyError (k : string)
| TypeError
| AttributeError.

Inductive result (A : Type) : Type :=
| Ok (a : A)
| Raise (e : exn).
Arguments Ok {A} a.
Arguments Raise {A} e.

#[global] Instance result_ret : MRet result := @Ok.
#[global] Instance result_bind : MBind result := fun A B f r =>
  match r with
  | Ok a => f a
  | Raise e => Raise e
  end.

(** [bool(v)] *)
Definition truthy (v : pyval) : bool :=
  match v with
  | PNone => false
  | PBool b => b
  | PInt n => negb (Z.eqb n 0)
  | PStr s => negb (bool_decide (s = ""))
  | PList items => match items with [] => false | _ => true end
  | PDict entries => match entries with [] => false | _ => true end
  end.

(** The value bound to [k] in a dictionary's entries. *)
Fixpoint entry (k : string) (entries : list (string * pyval)) : option pyval :=
  match entries with
  | [] => None
  | (k', v) :: rest => if bool_decide (k = k') then Some v else entry k rest
  end.

(** [v[k]] for a string [k] *)
Definition py_getitem (v : pyval) (k : string) : result pyval :=
  match v with
  | PDict entries =>
      match entry k entries with
      | Some x => Ok x
      | None => Raise (KeyError k)
      end
  | _ => Raise TypeError
  end.

(** [v.get(k, default)]: only dictionaries have the method. *)
Definition py_get (v : pyval) (k : string) (default : pyval) : result pyval :=
  match v with
  | PDict entries =>
      match entry k entries with
      | Some x => Ok x
      | None => Ok default
      end
  | _ => Raise AttributeError
  end.

(** [v == s] for a string [s]: only an equal [str] compares equal. *)
Definition py_eq_str (v : pyval) (s : string) : bool :=
  match v with
  | PStr s' => bool_decide (s' = s)
  | _ => false
  end.

Definition is_substring (s1 s2 : string) : bool :=
  match String.index 0 s1 s2 with
  | Some _ => true
  | None => false
  end.

(** [k in v] for a string [k]: key test on a dictionary, element test
    on a list, substring test on a string. *)
Definition py_contains (k : string) (v : pyval) : result bool :=
  match v with
  | PDict entries => Ok (bool_decide (is_Some (entry k entries)))
  | PList items => Ok (existsb (fun x => py_eq_str x k) items)
  | PStr s => Ok (is_substring k s)
  | _ => Raise TypeError
  end.

(** A byte of the form 10xxxxxx continues a UTF-8 encoded character. *)
Definition is_continuation (a : ascii) : bool :=
  let n := nat_of_ascii a in
  (Nat.leb 128 n && Nat.ltb n 192)%bool.

Definition starts_with_continuation (s : string) : bool :=
  match s with
  | String a _ => is_continuation a
  | EmptyString => false
  end.

(** The characters of a [str], each as a one-character [str]. *)
Fixpoint py_chars (s : string) : list string :=
  match s with
  | EmptyString => []
  | String a rest =>
      if starts_with_continuation rest then
        match py_chars rest with
        | c :: cs => String a c :: cs
        | [] => [String a EmptyString]
        end
      else String a EmptyString :: py_chars rest
  end.

(** [list(v)]: what a [for] loop or [list.extend] goes through. *)
Definition py_iter (v : pyval) : result (list pyval) :=
  match v with
  | PList items => Ok items
  | PStr s => Ok (map PStr (py_chars s))
  | PDict entries => Ok (map (fun kv => PStr (fst kv)) entries)
  | _ => Raise TypeError
  end.

(** [len(v)] *)
Definition py_len (v : pyval) : result Z :=
  match v with
  | PList items => Ok (Z.of_nat (length items))
  | PStr s => Ok (Z.of_nat (length (py_chars s)))
  | PDict entries => Ok (Z.of_nat (length entries))
  | _ => Raise TypeError
  end.

(** [v[:n]].  A dictionary rejects the slice (with [TypeError] up to
    Python 3.11, where slices are unhashable). *)
Definition py_prefix (n : nat) (v : pyval) : result pyval :=
  match v with
  | PList items => Ok (PList (firstn n items))
  | PStr s => Ok (PStr (String.concat "" (firstn n (py_chars s))))
  | _ => Raise TypeError
  end.

(** [sep.join(items)]: every item has to be a [str]. *)
Fixpoint py_strs (items : list pyval) : result (list string) :=
  match items with
  | [] => Ok []
  | PStr s :: rest => ss ← py_strs rest; Ok (s :: ss)
  | _ :: _ => Raise TypeError
  end.

Definition py_join (sep : string) (items : list pyval) : result string :=
  ss ← py_strs items; Ok (String.concat sep ss).

(** [s + v] for a [str] [s] *)
Definition py_add_str (s : string) (v : pyval) : result string :=
  match v with
  | PStr s' => Ok (s +:+ s')
  | _ => Raise TypeError
  end.

(** ** Hashable values: dictionary keys and set members *)

(** Python identifies [True] with 1 and [False] with 0, in equality and
    in hash; lists and dictionaries are unhashable. *)
Inductive key : Type :=
| KNone
| KInt (n : Z)
| KStr (s : string).

#[global] Instance key_eq_dec : EqDecision key.
Proof. solve_decision. Defined.

#[global] Instance key_countable : Countable key.
Proof.
  refine (inj_countable'
    (fun k => match k with
              | KNone => inl ()
              | KInt n => inr (inl n)
              | KStr s => inr (inr s)
              end)
    (fun x => match x with
              | inl _ => KNone
              | inr (inl n) => KInt n
              | inr (inr s) => KStr s
              end) _).
  intros []; reflexivity.
Defined.

Definition key_of (v : pyval) : result key :=
  match v with
  | PNone => Ok KNone
  | PBool b => Ok (KInt (if b then 1 else 0))
  | PInt n => Ok (KInt n)
  | PStr s => Ok (KStr s)
  | PList _ | PDict _ => Raise TypeError
  end.

(** ** Configuration *)

Definition LANG : string := "en-US".
Definition BASE_URL : string := "https://api.themoviedb.org/3".
Definition IMAGE_BASE : string := "https://image.tmdb.org/t/p/w500".
Definition PAGES_PER_ENDPOINT : Z := 30.
(** 0.2 seconds; sleeps are recorded in milliseconds. *)
Definition SLEEP_BETWEEN_REQUESTS : Z := 200.
Definition SAVE_FILE : string := "tmdb_movies_full.csv".
Definition ENDPOINTS : list string :=
  ["/movie/popular"; "/movie/top_rated"; "/movie/upcoming"; "/movie/now_playing"].

(** ** Effects *)

(** An f-string is kept as the list of its parts, literal text as
    [PStr] and interpolated values unformatted. *)
Definition fstring : Type := list pyval.
Definition lit (s : string) : fstring := [PStr s].

Record session : Type := Session {
  headers : list (string * string);
  params : list (string * string)
}.

Record request : Type := Request {
  req_session : session;
  req_url : fstring;
  req_params : option (list (string * pyval));
  req_timeout : Z
}.

(** What [session.get] does: it raises, or it returns a response with
    a status code whose [json()] yields a value or raises in turn. *)
Inductive response : Type :=
| Failed
| Response (status_code : Z) (json : option pyval).

(** One line of the CSV file. *)
Record row : Type := Row {
  row_id : pyval;
  row_title : pyval;
  row_overview : pyval;
  row_release_date : pyval;
  row_vote_average : pyval;
  row_genres : string;
  row_top_cast : string;
  row_director : pyval;
  row_poster_url : string
}.

Inductive event : Type :=
| EvGet (rq : request) (rs : response)
| EvSleep (ms : Z)
| EvPrint (text : fstring)
| EvToCsv (path : string) (rows : list row).

(** A computation maps the history to its outcome and to the events it
    emitted, oldest first. *)
Definition M (A : Type) : Type := list event → result A * list event.

Definition ret {A} (a : A) : M A := fun _ => (Ok a, []).

Definition bind {A B} (m : M A) (f : A → M B) : M B := fun h =>
  match m h with
  | (Ok a, es) => let '(r, es') := f a (h ++ es) in (r, es ++ es')
  | (Raise e, es) => (Raise e, es)
  end.

Definition lift {A} (r : result A) : M A := fun _ => (r, []).
Definition emit (e : event) : M unit := fun _ => (Ok (), [e]).

Declare Scope crawl_scope.
Delimit Scope crawl_scope with crawl.
Notation "x <- m ;; k" := (bind m (fun x => k))
  (at level 100, m at next level, right associativity) : crawl_scope.
Notation "m ;; k" := (bind m (fun _ => k))
  (at level 100, right associativity) : crawl_scope.
Open Scope crawl_scope.

Definition sleep (ms : Z) : M unit := emit (EvSleep ms).
Definition print (text : fstring) : M unit := emit (EvPrint text).

(** [range(lo, hi)] *)
Definition py_range (lo hi : Z) : list Z := seqZ lo (hi - lo).

Section Crawler.

(** The credential read from the environment when the module loads:
    [os.getenv] gives [None] or a string. *)
Variable API_KEY : option string.

(** The remote service. *)
Variable server : list event → request → response.

Definition create_session : session :=
  {| headers := [("accept", "application/json");
                 ("Authorization",
                  "Bearer " +:+ match API_KEY with Some k => k | None => "None" end)];
     params := [("language", "en")] |}.

Definition session_get (s : session) (url : fstring)
    (params : option (list (string * pyval))) (timeout : Z) : M response :=
  fun h =>
    let rq := Request s url params timeout in
    let rs := server h rq in
    (Ok rs, [EvGet rq rs]).

(** The body of [for _ in range(3)], for the attempts that remain. *)
Fixpoint safe_get_attempts (n : nat) (s : session) (url : fstring)
    (params : option (list (string * pyval))) : M pyval :=
  match n with
  | O => ret PNone
  | S n' =>
      r <- session_get s url params 15;;
      match r with
      | Response status (Some data) =>
          if bool_decide (status = 200) then ret data
          else (sleep 1000;; safe_get_attempts n' s url params)
      | _ => sleep 1000;; safe_get_attempts n' s url params
      end
  end.

Definition safe_get (s : session) (url : fstring)
    (params : option (list (string * pyval))) : M pyval :=
  safe_get_attempts 3 s url params.

(** [for g in ...: genre_map[g["id"]] = g["name"]]: the right-hand side
    is evaluated first. *)
Fixpoint fill_genre_map (gs : list pyval) (genre_map : gmap key pyval)
    : result (gmap key pyval) :=
  match gs with
  | [] => Ok genre_map
  | g :: rest =>
      name ← py_getitem g "name";
      gid ← py_getitem g "id";
      k ← key_of gid;
      fill_genre_map rest (<[k := name]> genre_map)
  end.

Definition get_genres (s : session) : M (gmap key pyval) :=
  data <- safe_get s (lit (BASE_URL +:+ "/genre/movie/list")) None;;
  if truthy data then
    has <- lift (py_contains "genres" data);;
    if (has : bool) then
      lift (genres ← py_getitem data "genres";
            gs ← py_iter genres;
            fill_genre_map gs ∅)
    else ret ∅
  else ret ∅.

(** The body of [for page in range(1, pages + 1)], for the pages that
    remain. *)
Fixpoint get_movies_pages (s : session) (endpoint : string) (pages : list Z)
    (all_movies : list pyval) : M (list pyval) :=
  match pages with
  | [] => ret all_movies
  | page :: rest =>
      data <- safe_get s (lit (BASE_URL +:+ endpoint)) (Some [("page", PInt page)]);;
      if truthy data then
        has <- lift (py_contains "results" data);;
        if (has : bool) then
          results <- lift (py_getitem data "results");;
          movies <- lift (py_iter results);;
          n <- lift (py_len results);;
          print [PStr "📄 "; PStr endpoint; PStr " page "; PInt page; PStr " (";
                 PInt n; PStr " film)"];;
          sleep SLEEP_BETWEEN_REQUESTS;;
          get_movies_pages s endpoint rest (all_movies ++ movies)
        else ret all_movies
      else ret all_movies
  end.

Definition get_movies_from_endpoint (s : session) (endpoint : string) (pages : Z)
    : M (list pyval) :=
  get_movies_pages s endpoint (py_range 1 (pages + 1)) [].

(** [[c["name"] for c in cs]] *)
Fixpoint names_of (cs : list pyval) : result (list pyval) :=
  match cs with
  | [] => Ok []
  | c :: rest =>
      name ← py_getitem c "name";
      names ← names_of rest;
      Ok (name :: names)
  end.

(** [[c["name"] for c in crew if c.get("job") == "Director"]] *)
Fixpoint director_names (crew : list pyval) : result (list pyval) :=
  match crew with
  | [] => Ok []
  | c :: rest =>
      job ← py_get c "job" PNone;
      if py_eq_str job "Director" then
        name ← py_getitem c "name";
        names ← director_names rest;
        Ok (name :: names)
      else director_names rest
  end.

(** [get_movie_credits] after the fetch, for a truthy payload. *)
Definition extract_credits (data : pyval) : result (string * pyval) :=
  cast ← py_get data "cast" (PList []);
  top ← py_prefix 5 cast;
  cs ← py_iter top;
  cast_names ← names_of cs;
  crew ← py_get data "crew" (PList []);
  members ← py_iter crew;
  directors ← director_names members;
  top_cast ← py_join ", " cast_names;
  Ok (top_cast, match directors with d :: _ => d | [] => PStr "" end).

Definition get_movie_credits (s : session) (movie_id : pyval) : M (string * pyval) :=
  data <- safe_get s [PStr (BASE_URL +:+ "/movie/"); movie_id; PStr "/credits"] None;;
  if truthy data then lift (extract_credits data)
  else ret ("", PStr "").

(** The inner loop of the aggregation: [for m in movies: if m["id"] not
    in seen: ...].  [seen.add(m["id"])] reads the identifier again,
    with the same outcome. *)
Fixpoint dedup (movies all_movies : list pyval) (seen : gset key)
    : result (list pyval * gset key) :=
  match movies with
  | [] => Ok (all_movies, seen)
  | m :: rest =>
      mid ← py_getitem m "id";
      k ← key_of mid;
      if bool_decide (k ∈ seen) then dedup rest all_movies seen
      else dedup rest (all_movies ++ [m]) ({[k]} ∪ seen)
  end.

(** [for endpoint in ENDPOINTS: ...] *)
Fixpoint collect (s : session) (endpoints : list string)
    (all_movies : list pyval) (seen : gset key) : M (list pyval * gset key) :=
  match endpoints with
  | [] => ret (all_movies, seen)
  | endpoint :: rest =>
      print [PStr "📥 Get data from "; PStr endpoint; PStr " ..."];;
      movies <- get_movies_from_endpoint s endpoint PAGES_PER_ENDPOINT;;
      st <- lift (dedup movies all_movies seen);;
      collect s rest (fst st) (snd st)
  end.

(** [[genre_map.get(g, g) for g in ...]] *)
Fixpoint resolve_genres (genre_map : gmap key pyval) (gs : list pyval)
    : result (list pyval) :=
  match gs with
  | [] => Ok []
  | g :: rest =>
      k ← key_of g;
      names ← resolve_genres genre_map rest;
      Ok (default g (genre_map !! k) :: names)
  end.

(** [IMAGE_BASE + m["poster_path"] if m.get("poster_path") else ""] *)
Definition poster_of (m : pyval) : result string :=
  p ← py_get m "poster_path" PNone;
  if truthy p then
    path ← py_getitem m "poster_path";
    py_add_str IMAGE_BASE path
  else Ok "".

(** One iteration of the row loop, up to [rows.append]. *)
Definition build_row (s : session) (genre_map : gmap key pyval) (m : pyval) : M row :=
  mid <- lift (py_get m "id" PNone);;
  title <- lift (py_get m "title" PNone);;
  overview <- lift (py_get m "overview" PNone);;
  release_date <- lift (py_get m "release_date" PNone);;
  vote_average <- lift (py_get m "vote_average" PNone);;
  genres <- lift (gids ← py_get m "genre_ids" (PList []);
                  gs ← py_iter gids;
                  resolve_genres genre_map gs);;
  poster <- lift (poster_of m);;
  credits <- get_movie_credits s mid;;
  joined <- lift (py_join ", " genres);;
  ret {| row_id := mid; row_title := title; row_overview := overview;
         row_release_date := release_date; row_vote_average := vote_average;
         row_genres := joined; row_top_cast := fst credits;
         row_director := snd credits; row_poster_url := poster |}.

(** [for i, m in enumerate(all_movies, 1): ...], from index [i] on. *)
Fixpoint build_rows (s : session) (genre_map : gmap key pyval) (total : Z) (i : Z)
    (movies : list pyval) (rows : list row) : M (list row) :=
  match movies with
  | [] => ret rows
  | m :: rest =>
      r <- build_row s genre_map m;;
      print [PStr "🎞️ "; PInt i; PStr "/"; PInt total; PStr ": "; row_title r];;
      sleep SLEEP_BETWEEN_REQUESTS;;
      build_rows s genre_map total (i + 1) rest (rows ++ [r])
  end.

Definition newline : string := String "010"%char EmptyString.

(** [df.to_csv] is recorded as one event.  A failure of the write
    itself (a full disk, a path that cannot be opened) is not part of
    the model: such a failure would propagate from [main] and could
    leave the file incomplete. *)
Definition main : M unit :=
  if match API_KEY with
     | None => true
     | Some k => bool_decide (k = "") || bool_decide (k = "YOUR_API_KEY_HERE")
     end
  then print (lit "❌ Please set API_KEY or edit directly in code.")
  else
    let s := create_session in
    print (lit "🎬 Getting category list...");;
    genre_map <- get_genres s;;
    print [PStr "✅ Fetched "; PInt (Z.of_nat (size genre_map));
           PStr (" genres." +:+ newline)];;
    st <- collect s ENDPOINTS [] ∅;;
    let all_movies := fst st in
    let total := Z.of_nat (length all_movies) in
    print [PStr (newline +:+ "Total number of films obtained: "); PInt total];;
    rows <- build_rows s genre_map total 1 all_movies [];;
    emit (EvToCsv SAVE_FILE rows);;
    print [PStr (newline +:+ "✅ Data saved to "); PStr SAVE_FILE; PStr " (";
           PInt (Z.of_nat (length rows)); PStr " film)."].

End Crawler.

(** * Reading a run off its events *)

(** The payload an attempt delivers: the response has status 200 and
    its body parses. *)
Definition success (rs : response) : option pyval :=
  match rs with
  | Response status (Some data) => if bool_decide (status = 200) then Some data else None
  | _ => None
  end.

(** The events of failed attempts: each request is followed by the
    one-second sleep. *)
Definition retries (rq : request) (failures : list response) : list event :=
  flat_map (fun rs => [EvGet rq rs; EvSleep 1000]) failures.

(** The events of a retrying fetch whose attempts got the responses
    [rss]: a sleep follows every attempt that failed. *)
Definition attempts (rq : request) (rss : list response) : list event :=
  flat_map (fun rs => EvGet rq rs ::
              match success rs with Some _ => [] | None => [EvSleep 1000] end) rss.

(** Every response among the events [es] is the one the service gives
    to the request, after the history [h] and the events before it. *)
Fixpoint served (server : list event → request → response) (h es : list event)
    : Prop :=
  match es with
  | [] => True
  | ev :: rest =>
      match ev with
      | EvGet rq rs => rs = server h rq
      | _ => True
      end ∧ served server (h ++ [ev]) rest
  end.

(** The responses received for the requests that satisfy [sel]. *)
Fixpoint responses (sel : request → bool) (es : list event) : list response :=
  match es with
  | [] => []
  | EvGet rq rs :: rest =>
      if sel rq then rs :: responses sel rest else responses sel rest
  | _ :: rest => responses sel rest
  end.

(** What a retrying fetch hands to its caller, given the responses to
    its attempts: the payload of the last one, if that one succeeded. *)
Definition fetched (rss : list response) : pyval :=
  match last rss with
  | Some rs => default PNone (success rs)
  | None => PNone
  end.

(** The page number of a listing request for [endpoint]. *)
Definition page_request (endpoint : string) (rq : request) : option Z :=
  match req_url rq, req_params rq with
  | [PStr u], Some [(k, PInt page)] =>
      if bool_decide (u = BASE_URL +:+ endpoint ∧ k = "page") then Some page else None
  | _, _ => None
  end.

Definition is_page (endpoint : string) (page : Z) (rq : request) : bool :=
  bool_decide (page_request endpoint rq = Some page).

(** The page numbers requested from [endpoint], in request order, one
    entry per attempt. *)
Fixpoint pages_requested (endpoint : string) (es : list event) : list Z :=
  match es with
  | [] => []
  | EvGet rq _ :: rest =>
      match page_request endpoint rq with
      | Some page => page :: pages_requested endpoint rest
      | None => pages_requested endpoint rest
      end
  | _ :: rest => pages_requested endpoint rest
  end.

(** The payload the fetch of a page returned. *)
Definition page_payload (endpoint : string) (page : Z) (es : list event) : pyval :=
  fetched (responses (is_page endpoint page) es).

(** The paginator's test [not data or "results" not in data] holds. *)
Definition no_results (data : pyval) : Prop :=
  truthy data = false ∨ py_contains "results" data = Ok false.

(** The records a page contributes: those of its result list, none if
    the paginator's test holds. *)
Definition page_records (data : pyval) : list pyval :=
  if truthy data then
    match py_contains "results" data with
    | Ok true =>
        match results ← py_getitem data "results"; py_iter results with
        | Ok movies => movies
        | Raise _ => []
        end
    | _ => []
    end
  else [].

(** What the body of the paginator's loop does with a payload: stop
    ([None]), go on with the page's records and their number, or raise. *)
Definition page_outcome (data : pyval) : result (option (list pyval * Z)) :=
  if truthy data then
    has ← py_contains "results" data;
    if (has : bool) then
      results ← py_getitem data "results";
      movies ← py_iter results;
      n ← py_len results;
      Ok (Some (movies, n))
    else Ok None
  else Ok None.

(** The request for one page of a listing. *)
Definition listing_request (s : session) (endpoint : string) (page : Z) : request :=
  Request s (lit (BASE_URL +:+ endpoint)) (Some [("page", PInt page)]) 15.

(** What the paginator prints and sleeps after a page it accepted. *)
Definition page_done (endpoint : string) (page n : Z) : list event :=
  [EvPrint [PStr "📄 "; PStr endpoint; PStr " page "; PInt page; PStr " (";
            PInt n; PStr " film)"];
   EvSleep SLEEP_BETWEEN_REQUESTS].

(** The files written by a run, in order. *)
Definition csv_writes (es : list event) : list (string * list row) :=
  omap (fun e => match e with EvToCsv path rows => Some (path, rows) | _ => None end) es.

Definition requests (es : list event) : list request :=
  omap (fun e => match e with EvGet rq _ => Some rq | _ => None end) es.

(** ** Credits, as the specification words them *)

(** [c.get("job") == "Director"] holds for the crew entry [c]. *)
Definition is_director (c : pyval) : bool :=
  match py_get c "job" PNone with
  | Ok job => py_eq_str job "Director"
  | Raise _ => false
  end.

(** The name of the first crew entry whose job is "Director", the
    empty string if there is none. *)
Definition first_director (crew : list pyval) : pyval :=
  match List.find is_director crew with
  | Some c =>
      match py_getitem c "name" with
      | Ok name => name
      | Raise _ => PNone
      end
  | None => PStr ""
  end.

(** A crew entry the credits payload may hold: an object, with a name
    if its job is "Director". *)
Definition crew_entry (c : pyval) : Prop :=
  ∃ entries, c = PDict entries ∧
    (is_director c = true → is_Some (entry "name" entries)).

(** ** Listing records *)

#[global] Instance exn_eq_dec : EqDecision exn.
Proof. solve_decision. Defined.

#[global] Instance result_eq_dec {A} `{EqDecision A} : EqDecision (result A).
Proof. solve_decision. Defined.

(** The set member the deduplication derives from a record:
    [m["id"]], hashed. *)
Definition movie_key (m : pyval) : result key :=
  mid ← py_getitem m "id"; key_of mid.

(** First-seen-wins, as the specification words it: going through the
    combined sequence, a record is kept unless a record before it has
    its identifier. *)
Fixpoint first_seen (earlier movies : list pyval) : list pyval :=
  match movies with
  | [] => []
  | m :: rest =>
      if bool_decide (movie_key m ∈ movie_key <$> earlier)
      then first_seen (earlier ++ [m]) rest
      else m :: first_seen (earlier ++ [m]) rest
  end.

(** The records the service delivered for an endpoint, page by page,
    and for a list of endpoints, endpoint by endpoint. *)
Definition listed (endpoint : string) (es : list event) : list pyval :=
  flat_map (fun p => page_records (page_payload endpoint p es))
    (py_range 1 (PAGES_PER_ENDPOINT + 1)).

Definition listed_all (endpoints : list string) (es : list event) : list pyval :=
  flat_map (fun endpoint => listed endpoint es) endpoints.

(** The row [r] is made from the record [m]: the five copied fields,
    the genre names resolved through [genre_map] and joined, and the
    poster URL. *)
Definition built_from (genre_map : gmap key pyval) (m : pyval) (r : row) : Prop :=
  py_get m "id" PNone = Ok (row_id r) ∧
  py_get m "title" PNone = Ok (row_title r) ∧
  py_get m "overview" PNone = Ok (row_overview r) ∧
  py_get m "release_date" PNone = Ok (row_release_date r) ∧
  py_get m "vote_average" PNone = Ok (row_vote_average r) ∧
  (gids ← py_get m "genre_ids" (PList []);
   gs ← py_iter gids;
   names ← resolve_genres genre_map gs;
   py_join ", " names) = Ok (row_genres r) ∧
  poster_of m = Ok (row_poster_url r).

(** Every request among the events satisfies [P], and no file is
    written. *)
Definition only (P : request → Prop) (es : list event) : Prop :=
  Forall (fun ev =>
            match ev with
            | EvGet rq _ => P rq
            | EvToCsv _ _ => False
            | _ => True
            end) es.

(** A record with an identifier: an object whose "id" is [None], a
    boolean, a number or a string (the API sends integers). *)
Definition has_id (m : pyval) : Prop :=
  ∃ entries v k, m = PDict entries ∧ entry "id" entries = Some v ∧ key_of v = Ok k.

(** An object without the key "id". *)
Definition lacks_id (m : pyval) : Prop :=
  ∃ entries, m = PDict entries ∧ entry "id" entries = None.

(** An object with the key "id", whatever it holds. *)
Definition contains_id (m : pyval) : Prop :=
  ∃ entries v, m = PDict entries ∧ entry "id" entries = Some v.

(** An object whose "id" is a list or an object, which cannot be a
    member of a set. *)
Definition unhashable_id (m : pyval) : Prop :=
  ∃ entries v, m = PDict entries ∧ entry "id" entries = Some v ∧
    key_of v = Raise TypeError.

(** A payload whose "results" is the empty list. *)
Definition empty_results (data : pyval) : Prop :=
  ∃ entries, data = PDict entries ∧ entry "results" entries = Some (PList []).

(** ** Specifications of computations *)

(** Whatever the history, [m] either returns a value and emits events
    that satisfy [post], or raises after events that satisfy [exc]. *)
Definition spec {A} (m : M A) (post : A → list event → Prop)
    (exc : list event → Prop) : Prop :=
  ∀ h, match m h with
       | (Ok a, es) => post a es
       | (Raise _, es) => exc es
       end.

(** [m] only emits events that satisfy [Q], whether it returns or
    raises. *)
Definition emits {A} (Q : list event → Prop) (m : M A) : Prop :=
  spec m (fun _ => Q) Q.

(** [Q] holds of no events and of two runs of events put together. *)
Definition closed (Q : list event → Prop) : Prop :=
  Q [] ∧ ∀ es1 es2, Q es1 → Q es2 → Q (es1 ++ es2).

(** The deduplication set holds the identifiers of the records gone
    through so far. *)
Definition seen_of (seen : gset key) (earlier : list pyval) : Prop :=
  ∀ k, k ∈ seen ↔ Ok k ∈ movie_key <$> earlier.

(** A record whose identifier can be read and hashed. *)
Definition keyed (m : pyval) : Prop := ∃ k, movie_key m = Ok k.

(** ** A sample service *)

Module Sample.

Definition movie (id : Z) (title : string) (genre_ids : list Z) (poster_path : pyval)
    : pyval :=
  PDict [("id", PInt id); ("title", PStr title); ("overview", PStr "");
         ("release_date", PStr "2024-01-01"); ("vote_average", PInt 8);
         ("genre_ids", PList (map PInt genre_ids)); ("poster_path", poster_path)].

Definition person (name : string) : pyval := PDict [("name", PStr name)].

Definition crew_member (job name : string) : pyval :=
  PDict [("job", PStr job); ("name", PStr name)].

Definition genres_payload : pyval :=
  PDict [("genres", PList [PDict [("id", PInt 28); ("name", PStr "Action")];
                           PDict [("id", PInt 12); ("name", PStr "Adventure")]])].

Definition alpha : pyval := movie 1 "Alpha" [28] (PStr "/a.jpg").
Definition beta : pyval := movie 2 "Beta" [12; 28] PNone.
Definition beta_again : pyval := movie 2 "Beta (top rated)" [12] (PStr "/b.jpg").
Definition gamma : pyval := movie 3 "Gamma" [] (PStr "/c.jpg").
Definition delta : pyval := movie 4 "Delta" [12] (PStr "").
(** A record of a genre the genre list does not have. *)
Definition omega : pyval := movie 5 "Omega" [28; 99] PNone.

Definition listing (page : Z) (movies : list pyval) : pyval :=
  PDict [("page", PInt page); ("results", PList movies)].

Definition alpha_credits : pyval :=
  PDict [("id", PInt 1);
         ("cast", PList (map person ["A1"; "A2"; "A3"; "A4"; "A5"; "A6"; "A7"]));
         ("crew", PList [crew_member "Producer" "P"; crew_member "Director" "D1";
                         crew_member "Director" "D2"])].

Definition beta_credits : pyval :=
  PDict [("id", PInt 2); ("cast", PList (map person ["B1"; "B2"]));
         ("crew", PList [crew_member "Writer" "W"])].

(** Popular has three pages of records, the second one empty, then an
    error object; top rated answers its first page on the second
    attempt only and fails on the second page; the other listings
    answer 404; credits exist for the first two movies. *)
Definition server (h : list event) (rq : request) : response :=
  match req_url rq, req_params rq with
  | [PStr u], None =>
      if bool_decide (u = BASE_URL +:+ "/genre/movie/list")
      then Response 200 (Some genres_payload) else Response 404 None
  | [PStr u], Some [(_, PInt page)] =>
      if bool_decide (u = BASE_URL +:+ "/movie/popular") then
        if bool_decide (page = 1) then Response 200 (Some (listing 1 [alpha; beta]))
        else if bool_decide (page = 2) then Response 200 (Some (listing 2 []))
        else if bool_decide (page = 3) then Response 200 (Some (listing 3 [gamma; alpha]))
        else Response 200 (Some (PDict [("success", PBool false)]))
      else if bool_decide (u = BASE_URL +:+ "/movie/top_rated") then
        if bool_decide (page = 1) then
          match last h with
          | Some (EvSleep _) => Response 200 (Some (listing 1 [beta_again; delta]))
          | _ => Failed
          end
        else Failed
      else Response 404 None
  | [PStr _; PInt 1; PStr _], None => Response 200 (Some alpha_credits)
  | [PStr _; PInt 2; PStr _], None => Response 200 (Some beta_credits)
  | _, _ => Response 500 None
  end.

(** A service that lists one movie, of a genre missing from its
    genre list. *)
Definition omega_server (h : list event) (rq : request) : response :=
  match req_url rq, req_params rq with
  | [PStr u], None =>
      if bool_decide (u = BASE_URL +:+ "/genre/movie/list")
      then Response 200 (Some genres_payload) else Response 404 None
  | [PStr u], Some [(_, PInt page)] =>
      if bool_decide (u = BASE_URL +:+ "/movie/popular" ∧ page = 1)
      then Response 200 (Some (listing 1 [omega]))
      else Response 404 None
  | _, _ => Response 404 None
  end.

(** A service whose every page is an empty result list. *)
Definition empty_server (h : list event) (rq : request) : response :=
  Response 200 (Some (listing 1 [])).

Definition alpha_row : row :=
  {| row_id := PInt 1; row_title := PStr "Alpha"; row_overview := PStr "";
     row_release_date := PStr "2024-01-01"; row_vote_average := PInt 8;
     row_genres := "Action"; row_top_cast := "A1, A2, A3, A4, A5";
     row_director := PStr "D1";
     row_poster_url := "https://image.tmdb.org/t/p/w500/a.jpg" |}.

Definition beta_row : row :=
  {| row_id := PInt 2; row_title := PStr "Beta"; row_overview := PStr "";
     row_release_date := PStr "2024-01-01"; row_vote_average := PInt 8;
     row_genres := "Adventure, Action"; row_top_cast := "B1, B2";
     row_director := PStr "";
     row_poster_url := "" |}.

Definition gamma_row : row :=
  {| row_id := PInt 3; row_title := PStr "Gamma"; row_overview := PStr "";
     row_release_date := PStr "2024-01-01"; row_vote_average := PInt 8;
     row_genres := ""; row_top_cast := ""; row_director := PStr "";
     row_poster_url := "https://image.tmdb.org/t/p/w500/c.jpg" |}.

Definition delta_row : row :=
  {| row_id := PInt 4; row_title := PStr "Delta"; row_overview := PStr "";
     row_release_date := PStr "2024-01-01"; row_vote_average := PInt 8;
     row_genres := "Adventure"; row_top_cast := ""; row_director := PStr "";
     row_poster_url := "" |}.

Definition rows : list row := [alpha_row; beta_row; gamma_row; delta_row].

Definition api_key : option string := Some "secret".
Definition sess : session := create_session api_key.

Definition genre_map : gmap key pyval :=
  {[ KInt 28 := PStr "Action"; KInt 12 := PStr "Adventure" ]}.

End Sample.

(** ** The other requests, and the genre list *)

(** The request for the genre list, and the one for the credits of a
    movie. *)
Definition genres_request (s : session) : request :=
  Request s (lit (BASE_URL +:+ "/genre/movie/list")) None 15.

Definition credits_request (s : session) (movie_id : pyval) : request :=
  Request s [PStr (BASE_URL +:+ "/movie/"); movie_id; PStr "/credits"] None 15.

(** The movie identifier of a credits request. *)
Definition credits_id (rq : request) : option pyval :=
  match req_url rq, req_params rq with
  | [PStr u; movie_id; PStr v], None =>
      if bool_decide (u = BASE_URL +:+ "/movie/" ∧ v = "/credits")
      then Some movie_id else None
  | _, _ => None
  end.

(** The identifiers credits were requested for, in request order, one
    entry per attempt. *)
Fixpoint credits_requested (es : list event) : list pyval :=
  match es with
  | [] => []
  | EvGet rq _ :: rest =>
      match credits_id rq with
      | Some movie_id => movie_id :: credits_requested rest
      | None => credits_requested rest
      end
  | _ :: rest => credits_requested rest
  end.

(** [get_genres] after the fetch. *)
Definition genre_map_of (data : pyval) : result (gmap key pyval) :=
  if truthy data then
    has ← py_contains "genres" data;
    if (has : bool) then
      genres ← py_getitem data "genres";
      gs ← py_iter genres;
      fill_genre_map gs ∅
    else Ok ∅
  else Ok ∅.

(** The key and the name an entry of the genre list stands for. *)
Definition genre_pair (g : pyval) : result (key * pyval) :=
  name ← py_getitem g "name";
  gid ← py_getitem g "id";
  k ← key_of gid;
  Ok (k, name).

(** A credential [main] accepts. *)
Definition valid_key (API_KEY : option string) : Prop :=
  ∃ k, API_KEY = Some k ∧ k ≠ "" ∧ k ≠ "YOUR_API_KEY_HERE".

(** No file is written and [n] requests are made. *)
Definition fetches (n : nat) (es : list event) : Prop :=
  csv_writes es = [] ∧ length (requests es) = n.

(** The requests [rqs] fall into one group for each endpoint, in the
    order of the endpoints, a group holding page requests for its
    endpoint only. *)
Definition grouped (s : session) (endpoints : list string) (rqs : list request)
    : Prop :=
  ∃ groups,
    Forall2 (fun endpoint group =>
               Forall (fun rq => ∃ page, rq = listing_request s endpoint page) group)
      endpoints groups ∧
    rqs = concat groups.

(** The requests of a run come in three phases: for the genre list,
    for the listings endpoint by endpoint, for credits. *)
Definition phased (s : session) (es : list event) : Prop :=
  ∃ gs ls cs,
    requests es = gs ++ ls ++ cs ∧
    Forall (fun rq => rq = genres_request s) gs ∧
    grouped s ENDPOINTS ls ∧
    Forall (fun rq => ∃ movie_id, rq = credits_request s movie_id) cs.

(** ** More sample services *)

Module Scenario.

(** The network is down. *)
Definition dead (h : list event) (rq : request) : response := Failed.

(** The genre list names genre 28 twice. *)
Definition renamed_genres : pyval :=
  PDict [("genres", PList [PDict [("id", PInt 28); ("name", PStr "Action")];
                           PDict [("id", PInt 12); ("name", PStr "Adventure")];
                           PDict [("id", PInt 28); ("name", PStr "Thriller")]])].

Definition renaming_server (h : list event) (rq : request) : response :=
  Response 200 (Some renamed_genres).

(** The second genre has no name. *)
Definition nameless_server (h : list event) (rq : request) : response :=
  Response 200 (Some (PDict [("genres",
    PList [PDict [("id", PInt 28); ("name", PStr "Action")];
           PDict [("id", PInt 12)]])])).

(** Page 1 holds a record, page 2 has [null] for its results. *)
Definition null_page_server (h : list event) (rq : request) : response :=
  match req_params rq with
  | Some [(_, PInt page)] =>
      if bool_decide (page = 1) then Response 200 (Some (Sample.listing 1 [Sample.alpha]))
      else Response 200 (Some (PDict [("results", PNone)]))
  | _ => Response 404 None
  end.

(** Every page holds the same record. *)
Definition full_server (h : list event) (rq : request) : response :=
  Response 200 (Some (Sample.listing 1 [Sample.alpha])).

(** Credits come back as a list, not an object. *)
Definition list_credits_server (h : list event) (rq : request) : response :=
  Response 200 (Some (PList [PInt 1])).

(** The second director has no name. *)
Definition nameless_director_server (h : list event) (rq : request) : response :=
  Response 200 (Some (PDict [
    ("cast", PList [Sample.person "A1"]);
    ("crew", PList [Sample.crew_member "Director" "D1";
                    PDict [("job", PStr "Director")]])])).

(** A record with an identifier and nothing else. *)
Definition bare : pyval := PDict [("id", PInt 7)].

(** A record whose identifier is a list. *)
Definition list_id : pyval := PDict [("id", PList [PInt 1]); ("title", PStr "Listed")].

(** The first page of the first listing holds that record. *)
Definition list_id_server (h : list event) (rq : request) : response :=
  match req_params rq with
  | Some [(_, PInt page)] =>
      if bool_decide (page = 1) then Response 200 (Some (Sample.listing 1 [list_id]))
      else Response 404 None
  | _ => Response 404 None
  end.

(** A record whose genre list is [null]. *)
Definition null_genres : pyval := PDict [("id", PInt 8); ("genre_ids", PNone)].

End Scenario.

(** * Proofs *)

Section Runs.

Context {A B : Type}.

Lemma bind_ok (m : M A) (f : A → M B) h a es r es' :
  m h = (Ok a, es) → f a (h ++ es) = (r, es') → bind m f h = (r, es ++ es').
Proof. intros Hm Hf. unfold bind. rewrite Hm, Hf. reflexivity. Qed.

Lemma bind_raise (m : M A) (f : A → M B) h e es :
  m h = (Raise e, es) → bind m f h = (Raise e, es).
Proof. intros Hm. unfold bind. rewrite Hm. reflexivity. Qed.

Lemma bind_inv (m : M A) (f : A → M B) h r es :
  bind m f h = (r, es) →
  (∃ a es1 es2, m h = (Ok a, es1) ∧ f a (h ++ es1) = (r, es2) ∧ es = es1 ++ es2)
  ∨ (∃ e, m h = (Raise e, es) ∧ r = Raise e).
Proof.
  unfold bind. destruct (m h) as [[a|e] es1].
  - destruct (f a (h ++ es1)) as [r' es2] eqn:Hf. intros [= <- <-].
    left. eauto 6.
  - intros [= <- <-]. right. eauto.
Qed.

Lemma bind_lift_ok (x : result A) (f : A → M B) h a :
  x = Ok a → bind (lift x) f h = f a h.
Proof.
  intros ->. unfold bind, lift. rewrite app_nil_r.
  destruct (f a h). reflexivity.
Qed.

Lemma bind_lift_raise (x : result A) (f : A → M B) h e :
  x = Raise e → bind (lift x) f h = (Raise e, []).
Proof. intros ->. reflexivity. Qed.

End Runs.

Lemma bind_ok_inv {A B} (m : M A) (f : A → M B) h b es :
  bind m f h = (Ok b, es) →
  ∃ a es1 es2, m h = (Ok a, es1) ∧ f a (h ++ es1) = (Ok b, es2) ∧ es = es1 ++ es2.
Proof.
  intros H. apply bind_inv in H as [H | (e & _ & [=])]. exact H.
Qed.

Lemma bind_lift_inv {A B} (x : result A) (f : A → M B) h b es :
  bind (lift x) f h = (Ok b, es) → ∃ a, x = Ok a ∧ f a h = (Ok b, es).
Proof.
  intros H. apply bind_ok_inv in H as (a & es1 & es2 & Hx & Hf & ->).
  unfold lift in Hx. injection Hx as -> <-. rewrite app_nil_r in Hf. eauto.
Qed.

Lemma bind_emit {B} (ev : event) (k : M B) h :
  bind (emit ev) (fun _ => k) h = let '(r, es) := k (h ++ [ev]) in (r, ev :: es).
Proof. reflexivity. Qed.

Lemma success_some rs data :
  success rs = Some data → rs = Response 200 (Some data).
Proof.
  destruct rs as [|status [d|]]; simpl; try discriminate.
  case_bool_decide; [|discriminate]. intros [= ->]. by subst.
Qed.

Section SafeGet.

Variable server : list event → request → response.

(** One attempt of the retry loop. *)
Lemma safe_get_attempts_S n s url params h :
  safe_get_attempts server (S n) s url params h =
    let rq := Request s url params 15 in
    let rs := server h rq in
    match success rs with
    | Some data => (Ok data, [EvGet rq rs])
    | None =>
        let '(r, es) :=
          safe_get_attempts server n s url params (h ++ [EvGet rq rs; EvSleep 1000]) in
        (r, EvGet rq rs :: EvSleep 1000 :: es)
    end.
Proof.
  cbn [safe_get_attempts]. unfold bind at 1, session_get at 1.
  assert (Hretry :
    (let '(r, es') := bind (sleep 1000)
        (fun _ => safe_get_attempts server n s url params)
        (h ++ [EvGet (Request s url params 15) (server h (Request s url params 15))])
     in (r, [EvGet (Request s url params 15) (server h (Request s url params 15))] ++ es'))
    = (let '(r, es) := safe_get_attempts server n s url params
          (h ++ [EvGet (Request s url params 15) (server h (Request s url params 15));
                 EvSleep 1000])
       in (r, EvGet (Request s url params 15) (server h (Request s url params 15))
                :: EvSleep 1000 :: es))).
  { unfold sleep. rewrite bind_emit, <- app_assoc. simpl.
    destruct (safe_get_attempts _ _ _ _ _ _). reflexivity. }
  cbv zeta. destruct (server h (Request s url params 15)) as [|status [data|]];
    simpl; try exact Hretry.
  case_bool_decide; [reflexivity | exact Hretry].
Qed.

(** The retry loop with [n] attempts left: some attempts fail, then
    either one succeeds and its payload is returned at once, or
    the budget is used up and [None] is returned. *)
Lemma safe_get_attempts_run n s url params h :
  let rq := Request s url params 15 in
  ∃ failures,
    Forall (fun rs => success rs = None) failures ∧
    ((∃ data,
        (length failures < n)%nat ∧
        safe_get_attempts server n s url params h =
          (Ok data, retries rq failures ++ [EvGet rq (Response 200 (Some data))]))
     ∨ (length failures = n ∧
        safe_get_attempts server n s url params h = (Ok PNone, retries rq failures))).
Proof.
  intros rq. revert h. induction n as [|n IH]; intros h.
  - exists []. split; [constructor|]. right. split; reflexivity.
  - rewrite safe_get_attempts_S. cbv zeta. fold rq.
    destruct (success (server h rq)) as [data|] eqn:Hrs.
    + exists []. split; [constructor|]. left. exists data.
      split; [simpl; lia|]. by rewrite (success_some _ _ Hrs).
    + destruct (IH (h ++ [EvGet rq (server h rq); EvSleep 1000]))
        as (failures & Hall & [(data & Hlen & Hrun) | [Hlen Hrun]]).
      * exists (server h rq :: failures). split; [by constructor|]. left.
        exists data. split; [simpl; lia|]. rewrite Hrun. reflexivity.
      * exists (server h rq :: failures). split; [by constructor|]. right.
        split; [simpl; lia|]. rewrite Hrun. reflexivity.
Qed.

(** The responses in the events of the retry loop are the service's. *)
Lemma safe_get_attempts_served n s url params h :
  served server h (snd (safe_get_attempts server n s url params h)).
Proof.
  revert h. induction n as [|n IH]; intros h; [done|].
  rewrite safe_get_attempts_S. cbv zeta.
  destruct (success (server h (Request s url params 15))); [done|].
  specialize (IH (h ++ [EvGet (Request s url params 15)
                          (server h (Request s url params 15)); EvSleep 1000])).
  destruct (safe_get_attempts server n s url params _) as [r es].
  cbn [snd served] in *. rewrite <- app_assoc. done.
Qed.

(** C3.  [safe_get] never raises and makes at most three attempts, all
    with the same request and the 15 second timeout, each answered by
    the service.  The attempts before the last one failed (the call
    raised, the status was not 200 or the body did not parse), each
    followed by the one-second sleep.  Either the last attempt has
    status 200 and a body that parses, it comes after fewer than three
    failures and its payload is returned with nothing done after it;
    or all three attempts failed and the value returned is [None]. *)
Theorem safe_get_three_attempts s url params h :
  let rq := Request s url params 15 in
  ∃ failures,
    Forall (fun rs => success rs = None) failures ∧
    served server h (snd (safe_get server s url params h)) ∧
    ((∃ data,
        (length failures < 3)%nat ∧
        safe_get server s url params h =
          (Ok data, retries rq failures ++ [EvGet rq (Response 200 (Some data))]))
     ∨ (length failures = 3%nat ∧
        safe_get server s url params h = (Ok PNone, retries rq failures))).
Proof.
  intros rq.
  destruct (safe_get_attempts_run 3 s url params h) as (failures & Hfail & Hrun).
  exists failures. split; [done|]. split; [|exact Hrun].
  apply safe_get_attempts_served.
Qed.

Lemma attempts_failures rq failures :
  Forall (fun rs => success rs = None) failures →
  attempts rq failures = retries rq failures.
Proof.
  induction 1 as [|rs rss Hrs _ IH]; [done|].
  unfold attempts, retries in *. simpl. by rewrite Hrs, IH.
Qed.

Lemma attempts_app rq rss1 rss2 :
  attempts rq (rss1 ++ rss2) = attempts rq rss1 ++ attempts rq rss2.
Proof. unfold attempts. by rewrite flat_map_app. Qed.

Lemma fetched_failures failures :
  Forall (fun rs => success rs = None) failures → fetched failures = PNone.
Proof.
  intros Hall. unfold fetched. destruct (last failures) as [rs|] eqn:Hlast; [|done].
  apply last_Some_elem_of in Hlast.
  rewrite Forall_forall in Hall. by rewrite (Hall _ Hlast).
Qed.

Lemma fetched_snoc rss rs : fetched (rss ++ [rs]) = default PNone (success rs).
Proof. unfold fetched. by rewrite last_snoc. Qed.

(** A retrying fetch, as the rest of the script sees it: one to three
    attempts, and the value [fetched] from their responses. *)
Lemma safe_get_run s url params h :
  ∃ rss,
    (1 ≤ length rss ≤ 3)%nat ∧
    safe_get server s url params h =
      (Ok (fetched rss), attempts (Request s url params 15) rss).
Proof.
  destruct (safe_get_attempts_run 3 s url params h)
    as (failures & Hall & [(data & Hlen & Hrun) | [Hlen Hrun]]).
  - exists (failures ++ [Response 200 (Some data)]). split.
    + rewrite length_app. simpl. lia.
    + unfold safe_get. rewrite Hrun, fetched_snoc, attempts_app, attempts_failures by done.
      reflexivity.
  - exists failures. split; [lia|].
    unfold safe_get. by rewrite Hrun, fetched_failures, attempts_failures.
Qed.

End SafeGet.

(** ** The credential check *)

(** C8.  With the credential absent, or equal to the placeholder, the
    run consists of one printed error message: no request is issued,
    no file is written, and [main] returns normally. *)
Theorem main_without_credential API_KEY server h :
  API_KEY = None ∨ API_KEY = Some "YOUR_API_KEY_HERE" →
  ∃ es,
    main API_KEY server h = (Ok (), es) ∧
    es = [EvPrint (lit "❌ Please set API_KEY or edit directly in code.")] ∧
    requests es = [] ∧ csv_writes es = [].
Proof.
  intros [-> | ->]; eexists; (split; [reflexivity|]); done.
Qed.

Lemma main_without_credential_witness :
  ∃ es,
    main None (fun _ _ => Response 200 (Some (PDict []))) [] = (Ok (), es) ∧
    es = [EvPrint (lit "❌ Please set API_KEY or edit directly in code.")] ∧
    requests es = [] ∧ csv_writes es = [].
Proof.
  apply (main_without_credential None (fun _ _ => Response 200 (Some (PDict []))) []).
  left. reflexivity.
Defined.

(** ** Row assembly *)

Section Rows.

Variable server : list event → request → response.

(** What a row is made of, read off a successful [build_row]. *)
Lemma build_row_ok s genre_map m h r es :
  build_row server s genre_map m h = (Ok r, es) →
  ∃ gids gs genres credits,
    py_get m "id" PNone = Ok (row_id r) ∧
    py_get m "title" PNone = Ok (row_title r) ∧
    py_get m "overview" PNone = Ok (row_overview r) ∧
    py_get m "release_date" PNone = Ok (row_release_date r) ∧
    py_get m "vote_average" PNone = Ok (row_vote_average r) ∧
    py_get m "genre_ids" (PList []) = Ok gids ∧
    py_iter gids = Ok gs ∧
    resolve_genres genre_map gs = Ok genres ∧
    poster_of m = Ok (row_poster_url r) ∧
    get_movie_credits server s (row_id r) h = (Ok credits, es) ∧
    py_join ", " genres = Ok (row_genres r) ∧
    row_top_cast r = fst credits ∧ row_director r = snd credits.
Proof.
  unfold build_row. intros H.
  apply bind_lift_inv in H as (mid & Hmid & H).
  apply bind_lift_inv in H as (title & Htitle & H).
  apply bind_lift_inv in H as (overview & Hoverview & H).
  apply bind_lift_inv in H as (release_date & Hdate & H).
  apply bind_lift_inv in H as (vote & Hvote & H).
  apply bind_lift_inv in H as (genres & Hgenres & H).
  apply bind_lift_inv in H as (poster & Hposter & H).
  apply bind_ok_inv in H as (credits & es1 & es2 & Hcredits & H & ->).
  apply bind_lift_inv in H as (joined & Hjoined & H).
  injection H as <- <-. cbn [row_id row_title row_overview row_release_date
    row_vote_average row_genres row_top_cast row_director row_poster_url].
  rewrite app_nil_r.
  destruct (py_get m "genre_ids" (PList [])) as [gids|] eqn:Hgids; [|discriminate].
  simpl in Hgenres.
  destruct (py_iter gids) as [gs|] eqn:Hgs; [|discriminate].
  simpl in Hgenres.
  exists gids, gs, genres, credits. done.
Qed.


Lemma resolve_genres_unknown genre_map gs names n :
  resolve_genres genre_map gs = Ok names →
  PInt n ∈ gs → genre_map !! KInt n = None → PInt n ∈ names.
Proof.
  revert names. induction gs as [|g gs IH]; intros names Hres Hin Hnone.
  - by apply elem_of_nil in Hin.
  - simpl in Hres. destruct (key_of g) as [k|] eqn:Hk; [|discriminate].
    simpl in Hres.
    destruct (resolve_genres genre_map gs) as [names'|]; [|discriminate].
    injection Hres as <-. apply elem_of_cons in Hin as [<- | Hin].
    + injection Hk as <-. rewrite Hnone. apply list_elem_of_here.
    + apply list_elem_of_further. by apply IH.
Qed.

Lemma py_join_no_int sep items joined n :
  py_join sep items = Ok joined → PInt n ∉ items.
Proof.
  unfold py_join. destruct (py_strs items) as [ss|] eqn:Hss; [|discriminate].
  intros _. revert ss Hss. induction items as [|x items IH]; intros ss Hss.
  - apply not_elem_of_nil.
  - destruct x; try discriminate. simpl in Hss.
    destruct (py_strs items) as [ss'|]; [|discriminate].
    apply not_elem_of_cons. split; [done | by eapply IH].
Qed.

(** C2 fails on the code.  For a record whose genre-id list holds an
    integer that the genre map does not know, row assembly raises: the
    unresolved identifier stays a number in the list handed to
    [", ".join], which accepts strings only. *)
Theorem unknown_genre_id_raises s genre_map m gids n h :
  py_get m "genre_ids" (PList []) = Ok (PList gids) →
  PInt n ∈ gids →
  genre_map !! KInt n = None →
  ∃ e es, build_row server s genre_map m h = (Raise e, es).
Proof.
  intros Hgids Hin Hnone.
  destruct (build_row server s genre_map m h) as [[r|e] es] eqn:Hrow; [|eauto].
  apply build_row_ok in Hrow
    as (gids' & gs & genres & credits & _ & _ & _ & _ & _ & Hgids' & Hgs & Hres & _ & _
        & Hjoin & _).
  rewrite Hgids in Hgids'. injection Hgids' as <-. injection Hgs as <-.
  pose proof (resolve_genres_unknown _ _ _ _ Hres Hin Hnone) as Hnum.
  by apply (py_join_no_int _ _ _ n) in Hjoin.
Qed.

End Rows.


Lemma unknown_genre_id_raises_witness :
  ∃ e es,
    build_row Sample.server Sample.sess Sample.genre_map Sample.omega [] = (Raise e, es).
Proof.
  apply (unknown_genre_id_raises Sample.server Sample.sess Sample.genre_map
           Sample.omega [PInt 28; PInt 99] 99 []).
  - reflexivity.
  - apply list_elem_of_further, list_elem_of_here.
  - vm_compute. reflexivity.
Defined.

(** The exception is the [TypeError] of [", ".join], and a run that
    meets such a record ends with it, before the file is written. *)
Example unknown_genre_id_type_error :
  fst (build_row Sample.server Sample.sess Sample.genre_map Sample.omega [])
    = Raise TypeError ∧
  fst (main Sample.api_key Sample.omega_server []) = Raise TypeError ∧
  csv_writes (snd (main Sample.api_key Sample.omega_server [])) = [].
Proof. vm_compute. done. Qed.

(** ** Credits *)

Lemma py_strs_strings names : py_strs (map PStr names) = Ok names.
Proof. induction names as [|n names IH]; [done|]. simpl. by rewrite IH. Qed.

Lemma py_join_strings sep names :
  py_join sep (map PStr names) = Ok (String.concat sep names).
Proof. unfold py_join. by rewrite py_strs_strings. Qed.

Lemma names_of_strings cs names :
  Forall2 (fun c name => py_getitem c "name" = Ok (PStr name)) cs names →
  names_of cs = Ok (map PStr names).
Proof.
  induction 1 as [|c name cs names Hc _ IH]; [done|].
  simpl. by rewrite Hc, IH.
Qed.

Lemma director_names_first crew :
  Forall crew_entry crew →
  ∃ directors,
    director_names crew = Ok directors ∧
    match directors with d :: _ => d | [] => PStr "" end = first_director crew.
Proof.
  induction 1 as [|c crew (entries & -> & Hname) _ (directors & IH & Hfirst)].
  - by exists [].
  - unfold first_director in *. simpl. unfold is_director in *. simpl in *.
    destruct (entry "job" entries) as [job|]; simpl in *.
    + destruct (py_eq_str job "Director"); simpl.
      * destruct Hname as [name Hname]; [done|]. rewrite Hname. simpl.
        rewrite IH. simpl. eauto.
      * eauto.
    + eauto.
Qed.

Section Credits.

Variable server : list event → request → response.

(** C7.  When the fetch of the credits of [movie_id] returns no
    payload (or a falsy one), [get_movie_credits] returns a pair of
    empty strings.  When it returns an object whose cast array starts
    with entries named [names] (the first five, or all of them when
    there are fewer) and whose crew array holds objects, the result is
    those names in API order joined by ", ", with the name of the
    first crew entry whose job equals "Director", or the empty string
    when no entry has that job. *)
Theorem get_movie_credits_spec s movie_id h data es :
  safe_get server s [PStr (BASE_URL +:+ "/movie/"); movie_id; PStr "/credits"] None h
    = (Ok data, es) →
  (truthy data = false →
     get_movie_credits server s movie_id h = (Ok ("", PStr ""), es)) ∧
  (∀ cast crew names,
     truthy data = true →
     py_get data "cast" (PList []) = Ok (PList cast) →
     Forall2 (fun c name => py_getitem c "name" = Ok (PStr name)) (take 5 cast) names →
     py_get data "crew" (PList []) = Ok (PList crew) →
     Forall crew_entry crew →
     length names = Nat.min 5 (length cast) ∧
     get_movie_credits server s movie_id h
       = (Ok (String.concat ", " names, first_director crew), es)).
Proof.
  intros Hget. unfold get_movie_credits. split.
  - intros Hfalse. rewrite (bind_ok _ _ _ _ _ (Ok ("", PStr "")) [] Hget).
    + by rewrite app_nil_r.
    + by rewrite Hfalse.
  - intros cast crew names Htrue Hcast Hnames Hcrew Hentries. split.
    { apply Forall2_length in Hnames. rewrite <- Hnames, length_take. lia. }
    destruct (director_names_first crew Hentries) as (directors & Hdir & Hfirst).
    rewrite (bind_ok _ _ _ _ _
      (Ok (String.concat ", " names, first_director crew)) [] Hget).
    + by rewrite app_nil_r.
    + rewrite Htrue. unfold lift, extract_credits. rewrite Hcast. simpl.
      rewrite (names_of_strings _ _ Hnames). simpl.
      rewrite Hcrew. simpl. rewrite Hdir. simpl.
      rewrite py_join_strings. simpl. by rewrite Hfirst.
Qed.

End Credits.

Lemma get_movie_credits_spec_witness :
  let fetch := safe_get Sample.server Sample.sess
                 [PStr (BASE_URL +:+ "/movie/"); PInt 1; PStr "/credits"] None [] in
  length ["A1"; "A2"; "A3"; "A4"; "A5"] = Nat.min 5 7 ∧
  get_movie_credits Sample.server Sample.sess (PInt 1) []
    = (Ok ("A1, A2, A3, A4, A5", PStr "D1"), snd fetch).
Proof.
  intros fetch.
  refine (proj2 (get_movie_credits_spec Sample.server Sample.sess (PInt 1) []
            Sample.alpha_credits (snd fetch) _)
          (map Sample.person ["A1"; "A2"; "A3"; "A4"; "A5"; "A6"; "A7"])
          [Sample.crew_member "Producer" "P"; Sample.crew_member "Director" "D1";
           Sample.crew_member "Director" "D2"]
          ["A1"; "A2"; "A3"; "A4"; "A5"] _ _ _ _ _).
  - vm_compute. reflexivity.
  - reflexivity.
  - reflexivity.
  - repeat constructor.
  - reflexivity.
  - repeat constructor; eexists; (split; [reflexivity|]); intros _; vm_compute; eauto.
Defined.

(** ** Deduplication *)

Lemma has_id_key m :
  has_id m → ∃ v k, py_getitem m "id" = Ok v ∧ key_of v = Ok k.
Proof.
  intros (entries & v & k & -> & Hv & Hk). exists v, k. simpl. by rewrite Hv.
Qed.

Lemma dedup_has_id movies all_movies seen :
  Forall has_id movies →
  ∃ all_movies' seen', dedup movies all_movies seen = Ok (all_movies', seen').
Proof.
  intros Hall. revert all_movies seen.
  induction Hall as [|m movies Hm _ IH]; intros all_movies seen.
  - simpl. eauto.
  - apply has_id_key in Hm as (v & k & Hv & Hk). simpl. rewrite Hv. simpl.
    rewrite Hk. simpl. case_bool_decide; apply IH.
Qed.

Lemma dedup_lacks_id pre m post all_movies seen :
  Forall has_id pre → lacks_id m →
  dedup (pre ++ m :: post) all_movies seen = Raise (KeyError "id").
Proof.
  intros Hall (entries & -> & Hnone). revert all_movies seen.
  induction Hall as [|m' pre Hm _ IH]; intros all_movies seen.
  - simpl. by rewrite Hnone.
  - apply has_id_key in Hm as (v & k & Hv & Hk). simpl. rewrite Hv. simpl.
    rewrite Hk. simpl. case_bool_decide; apply IH.
Qed.

Lemma dedup_unhashable_id pre m post all_movies seen :
  Forall has_id pre → unhashable_id m →
  dedup (pre ++ m :: post) all_movies seen = Raise TypeError.
Proof.
  intros Hall (entries & v & -> & Hv & Hk). revert all_movies seen.
  induction Hall as [|m' pre Hm _ IH]; intros all_movies seen.
  - simpl. rewrite Hv. simpl. by rewrite Hk.
  - apply has_id_key in Hm as (v' & k' & Hv' & Hk'). simpl. rewrite Hv'. simpl.
    rewrite Hk'. simpl. case_bool_decide; apply IH.
Qed.

(** C10, as the code has it.  The deduplication loop reads [m["id"]]
    by subscript and puts it in a set.  Over records that all have an
    "id" that can be hashed ([None], a boolean, a number or a string)
    it returns normally.  At the first record without the key "id" it
    raises [KeyError], whatever follows, although the defaulting read
    used in row assembly, [m.get("id")], gives [None] for the same
    record.  At the first record whose "id" is a list or an object it
    raises [TypeError]. *)
Theorem dedup_needs_id :
  (∀ movies all_movies seen,
     Forall has_id movies →
     ∃ all_movies' seen', dedup movies all_movies seen = Ok (all_movies', seen')) ∧
  (∀ pre m post all_movies seen,
     Forall has_id pre → lacks_id m →
     dedup (pre ++ m :: post) all_movies seen = Raise (KeyError "id") ∧
     py_get m "id" PNone = Ok PNone) ∧
  (∀ pre m post all_movies seen,
     Forall has_id pre → unhashable_id m →
     dedup (pre ++ m :: post) all_movies seen = Raise TypeError).
Proof.
  split; [|split].
  - apply dedup_has_id.
  - intros pre m post all_movies seen Hall Hm. split.
    + by apply dedup_lacks_id.
    + destruct Hm as (entries & -> & Hnone). simpl. by rewrite Hnone.
  - apply dedup_unhashable_id.
Qed.

(** C10, as the claim words it, fails: a record whose "id" is a list
    contains the key, and the membership test raises [TypeError]. *)
Lemma dedup_raises_with_id_key :
  ¬ (∀ movies all_movies seen,
       Forall contains_id movies →
       ∃ all_movies' seen', dedup movies all_movies seen = Ok (all_movies', seen')).
Proof.
  intros Hclaim.
  destruct (Hclaim [Scenario.list_id] [] ∅) as (all_movies' & seen' & Hrun).
  - constructor; [|constructor]. by eexists _, (PList [PInt 1]).
  - discriminate Hrun.
Qed.

(** A run that is sent such a record ends with the [TypeError], after
    the first listing's requests and before any file is written. *)
Example list_id_run :
  fst (main Sample.api_key Scenario.list_id_server []) = Raise TypeError ∧
  csv_writes (snd (main Sample.api_key Scenario.list_id_server [])) = [] ∧
  credits_requested (snd (main Sample.api_key Scenario.list_id_server [])) = [].
Proof. vm_compute. done. Qed.

Lemma dedup_needs_id_witness :
  (∃ all_movies' seen',
     dedup [Sample.alpha; Sample.beta; Sample.alpha] [] ∅ = Ok (all_movies', seen')) ∧
  (dedup ([Sample.alpha] ++ PDict [("title", PStr "No id")] :: [Sample.beta]) [] ∅
     = Raise (KeyError "id") ∧
   py_get (PDict [("title", PStr "No id")]) "id" PNone = Ok PNone) ∧
  dedup ([Sample.alpha] ++ Scenario.list_id :: [Sample.beta]) [] ∅ = Raise TypeError.
Proof.
  assert (Hid : ∀ n t g p, has_id (Sample.movie n t g p)).
  { intros n t g p. eexists _, (PInt n), (KInt n). by split. }
  split; [|split].
  - apply (proj1 dedup_needs_id). repeat constructor; apply Hid.
  - apply (proj1 (proj2 dedup_needs_id)).
    + repeat constructor; apply Hid.
    + by exists [("title", PStr "No id")].
  - apply (proj2 (proj2 dedup_needs_id)).
    + repeat constructor; apply Hid.
    + by eexists _, (PList [PInt 1]).
Defined.

(** ** Observing events *)

Lemma responses_app sel es1 es2 :
  responses sel (es1 ++ es2) = responses sel es1 ++ responses sel es2.
Proof.
  induction es1 as [|[rq rs| | |] es1 IH]; simpl; try done.
  destruct (sel rq); simpl; by rewrite IH.
Qed.

Lemma pages_requested_app endpoint es1 es2 :
  pages_requested endpoint (es1 ++ es2)
    = pages_requested endpoint es1 ++ pages_requested endpoint es2.
Proof.
  induction es1 as [|[rq rs| | |] es1 IH]; simpl; try done.
  destruct (page_request endpoint rq); simpl; by rewrite IH.
Qed.

Lemma csv_writes_app es1 es2 : csv_writes (es1 ++ es2) = csv_writes es1 ++ csv_writes es2.
Proof. apply omap_app. Qed.

Lemma responses_attempts sel rq rss :
  responses sel (attempts rq rss) = if sel rq then rss else [].
Proof.
  induction rss as [|rs rss IH]; [by destruct (sel rq)|].
  unfold attempts in *. simpl.
  destruct (success rs); simpl; rewrite IH; by destruct (sel rq).
Qed.

Lemma pages_requested_attempts endpoint rq rss :
  pages_requested endpoint (attempts rq rss)
    = match page_request endpoint rq with
      | Some page => replicate (length rss) page
      | None => []
      end.
Proof.
  induction rss as [|rs rss IH]; [by destruct (page_request endpoint rq)|].
  unfold attempts in *. simpl.
  destruct (success rs); simpl; rewrite IH; by destruct (page_request endpoint rq).
Qed.

Lemma csv_writes_attempts rq rss : csv_writes (attempts rq rss) = [].
Proof.
  induction rss as [|rs rss IH]; [done|].
  unfold attempts in *. simpl. by destruct (success rs).
Qed.

Lemma page_request_listing endpoint s page :
  page_request endpoint (listing_request s endpoint page) = Some page.
Proof.
  unfold page_request, listing_request, lit. cbn [req_url req_params].
  by rewrite bool_decide_eq_true_2.
Qed.

Lemma responses_not_requested endpoint page es :
  page ∉ pages_requested endpoint es → responses (is_page endpoint page) es = [].
Proof.
  induction es as [|[rq rs| | |] es IH]; simpl; try done.
  unfold is_page at 1. destruct (page_request endpoint rq) as [q|] eqn:Hq.
  - intros Hnot. apply not_elem_of_cons in Hnot as [Hne Hnot].
    rewrite bool_decide_eq_false_2 by congruence. by apply IH.
  - rewrite bool_decide_eq_false_2 by congruence. apply IH.
Qed.

Lemma flat_map_ext_elem {A B} (f g : A → list B) l :
  (∀ x, x ∈ l → f x = g x) → flat_map f l = flat_map g l.
Proof.
  induction l as [|x l IH]; intros Hfg; [done|]. simpl.
  rewrite Hfg by apply list_elem_of_here.
  rewrite IH; [done|]. intros y Hy. apply Hfg. by apply list_elem_of_further.
Qed.

Lemma flat_map_nil_elem {A B} (f : A → list B) l :
  (∀ x, x ∈ l → f x = []) → flat_map f l = [].
Proof.
  induction l as [|x l IH]; intros Hf; [done|]. simpl.
  rewrite Hf by apply list_elem_of_here.
  apply IH. intros y Hy. apply Hf. by apply list_elem_of_further.
Qed.

(** ** The paginator *)

Lemma page_outcome_stop data : page_outcome data = Ok None ↔ no_results data.
Proof.
  unfold page_outcome, no_results. destruct (truthy data); [|by split; auto].
  destruct (py_contains "results" data) as [[]|]; simpl.
  - destruct (py_getitem data "results") as [results|]; simpl;
      [|split; [done | by intros [|]]].
    destruct (py_iter results); simpl; [|split; [done | by intros [|]]].
    destruct (py_len results); simpl; split; try done; by intros [|].
  - split; auto.
  - split; [done | by intros [|]].
Qed.

Lemma page_outcome_records data movies n :
  page_outcome data = Ok (Some (movies, n)) → page_records data = movies.
Proof.
  unfold page_outcome, page_records. destruct (truthy data); [|done].
  destruct (py_contains "results" data) as [[]|]; simpl; try done.
  destruct (py_getitem data "results") as [results|]; simpl; [|done].
  destruct (py_iter results); simpl; [|done].
  destruct (py_len results); simpl; [|done]. by intros [= -> _].
Qed.

Lemma page_records_stop data : no_results data → page_records data = [].
Proof.
  unfold page_records. intros [-> | ->]; [done|]. by destruct (truthy data).
Qed.

Section Paginator.

Variable server : list event → request → response.

(** One iteration of the paginator's loop. *)
Lemma get_movies_pages_cons s endpoint page rest all_movies h :
  ∃ rss,
    (1 ≤ length rss ≤ 3)%nat ∧
    let fetch := attempts (listing_request s endpoint page) rss in
    get_movies_pages server s endpoint (page :: rest) all_movies h =
      match page_outcome (fetched rss) with
      | Ok None => (Ok all_movies, fetch)
      | Raise e => (Raise e, fetch)
      | Ok (Some (movies, n)) =>
          let '(r, es) :=
            get_movies_pages server s endpoint rest (all_movies ++ movies)
              (h ++ fetch ++ page_done endpoint page n) in
          (r, fetch ++ page_done endpoint page n ++ es)
      end.
Proof.
  destruct (safe_get_run server s (lit (BASE_URL +:+ endpoint))
              (Some [("page", PInt page)]) h) as (rss & Hlen & Hget).
  exists rss. split; [done|]. cbv zeta. fold (listing_request s endpoint page) in Hget.
  cbn [get_movies_pages]. unfold bind at 1. rewrite Hget.
  unfold page_outcome.
  destruct (truthy (fetched rss)); [|by unfold ret; rewrite app_nil_r].
  unfold bind at 1, lift at 1.
  destruct (py_contains "results" (fetched rss)) as [[]|]; cbn [mbind result_bind];
    [| by unfold ret; rewrite !app_nil_r..].
  rewrite app_nil_r. unfold bind at 1, lift at 1.
  destruct (py_getitem (fetched rss) "results") as [results|]; cbn [mbind result_bind];
    [|by rewrite !app_nil_r].
  rewrite app_nil_r. unfold bind at 1, lift at 1.
  destruct (py_iter results) as [movies|]; cbn [mbind result_bind];
    [|by rewrite !app_nil_r].
  rewrite app_nil_r. unfold bind at 1, lift at 1.
  destruct (py_len results) as [n|]; cbn [mbind result_bind]; [|by rewrite !app_nil_r].
  rewrite app_nil_r. unfold print, sleep. rewrite !bind_emit.
  unfold page_done. rewrite <- !app_assoc. cbn [app].
  destruct (get_movies_pages server s endpoint rest (all_movies ++ movies) _).
  reflexivity.
Qed.

(** The page requests and the payloads seen in one iteration. *)
Lemma pages_requested_fetch s endpoint page rss :
  pages_requested endpoint (attempts (listing_request s endpoint page) rss)
    = replicate (length rss) page.
Proof. by rewrite pages_requested_attempts, page_request_listing. Qed.

Lemma page_payload_fetch s endpoint page rss q :
  page_payload endpoint q (attempts (listing_request s endpoint page) rss)
    = if bool_decide (q = page) then fetched rss else PNone.
Proof.
  unfold page_payload. rewrite responses_attempts. unfold is_page.
  rewrite page_request_listing. case_bool_decide as Hq.
  - injection Hq as ->. by rewrite bool_decide_eq_true_2.
  - rewrite bool_decide_eq_false_2 by congruence. done.
Qed.

Lemma page_payload_continue s endpoint page rss text ms es q :
  page ∉ pages_requested endpoint es →
  page_payload endpoint q
      (attempts (listing_request s endpoint page) rss ++ EvPrint text :: EvSleep ms :: es)
    = if bool_decide (q = page) then fetched rss else page_payload endpoint q es.
Proof.
  intros Hnot. unfold page_payload. rewrite !responses_app, responses_attempts.
  unfold is_page at 1. rewrite page_request_listing. cbn [responses].
  case_bool_decide as Hq.
  - injection Hq as ->. rewrite bool_decide_eq_true_2 by done.
    by rewrite responses_not_requested, app_nil_r.
  - rewrite bool_decide_eq_false_2 by congruence. done.
Qed.

Lemma seqZ_succ_nat lo len :
  seqZ lo (Z.of_nat (S len)) = lo :: seqZ (lo + 1) (Z.of_nat len).
Proof.
  rewrite seqZ_cons by lia. f_equal. f_equal; lia.
Qed.

(** The pages requested by the loop over [lo, lo + 1, ...]: in
    non-decreasing order, and exactly an initial segment. *)
Lemma get_movies_pages_requested s endpoint len lo all_movies h res es :
  get_movies_pages server s endpoint (seqZ lo (Z.of_nat len)) all_movies h = (res, es) →
  ∃ n : nat,
    (n ≤ len)%nat ∧ (0 < len → 0 < n)%nat ∧
    StronglySorted Z.le (pages_requested endpoint es) ∧
    ∀ p, p ∈ pages_requested endpoint es ↔ lo ≤ p < lo + Z.of_nat n.
Proof.
  revert lo all_movies h res es.
  induction len as [|len IH]; intros lo all_movies h res es Hrun.
  - injection Hrun as <- <-. exists 0%nat.
    split; [lia|]. split; [lia|]. split; [constructor|].
    intros p. split; [by intros ?%elem_of_nil | lia].
  - rewrite seqZ_succ_nat in Hrun.
    destruct (get_movies_pages_cons s endpoint lo (seqZ (lo + 1) (Z.of_nat len))
                all_movies h) as (rss & Hlen & Hstep).
    cbv zeta in Hstep. rewrite Hstep in Hrun. clear Hstep.
    assert (Hrep : StronglySorted Z.le (replicate (length rss) lo)).
    { clear. induction (length rss); simpl; constructor; [done|].
      apply Forall_forall. by intros x ->%elem_of_replicate_inv. }
    assert (Hone : ∀ es', pages_requested endpoint es' = replicate (length rss) lo →
      ∃ n : nat, (n ≤ S len)%nat ∧ (0 < S len → 0 < n)%nat ∧
        StronglySorted Z.le (pages_requested endpoint es') ∧
        ∀ p, p ∈ pages_requested endpoint es' ↔ lo ≤ p < lo + Z.of_nat n).
    { intros es' ->. exists 1%nat.
      split; [lia|]. split; [lia|]. split; [done|].
      intros p. rewrite elem_of_replicate. lia. }
    destruct (page_outcome (fetched rss)) as [[[movies n]|]|e].
    + destruct (get_movies_pages server s endpoint _ _ _) as [r es2] eqn:Htail.
      injection Hrun as <- <-.
      apply IH in Htail as (n2 & Hn2 & Hpos & Hsorted & Hmem).
      exists (S n2). rewrite !pages_requested_app, pages_requested_fetch.
      cbn [page_done pages_requested app].
      split; [lia|]. split; [lia|]. split.
      * apply StronglySorted_app. split; [|done].
        intros x1 x2 ->%elem_of_replicate_inv Hx2%Hmem. lia.
      * intros p. rewrite elem_of_app, elem_of_replicate, Hmem. lia.
    + injection Hrun as <- <-. apply Hone, pages_requested_fetch.
    + injection Hrun as <- <-. apply Hone, pages_requested_fetch.
Qed.

Lemma get_movies_pages_tail s endpoint len lo all_movies h res es :
  get_movies_pages server s endpoint (seqZ (lo + 1) (Z.of_nat len)) all_movies h
    = (res, es) →
  lo ∉ pages_requested endpoint es.
Proof.
  intros (n & _ & _ & _ & Hmem)%get_movies_pages_requested Hlo%Hmem. lia.
Qed.

(** The records returned are those of the pages, in page order. *)
Lemma get_movies_pages_records s endpoint len lo all_movies h movies es :
  get_movies_pages server s endpoint (seqZ lo (Z.of_nat len)) all_movies h
    = (Ok movies, es) →
  movies = all_movies ++
    flat_map (fun p => page_records (page_payload endpoint p es)) (seqZ lo (Z.of_nat len)).
Proof.
  revert lo all_movies h movies es.
  induction len as [|len IH]; intros lo all_movies h movies es Hrun.
  - injection Hrun as <- <-. by rewrite app_nil_r.
  - rewrite seqZ_succ_nat in Hrun |- *.
    destruct (get_movies_pages_cons s endpoint lo (seqZ (lo + 1) (Z.of_nat len))
                all_movies h) as (rss & Hlen & Hstep).
    cbv zeta in Hstep. rewrite Hstep in Hrun. clear Hstep.
    destruct (page_outcome (fetched rss)) as [[[ms n]|]|e] eqn:Hout.
    + destruct (get_movies_pages server s endpoint _ _ _) as [r es2] eqn:Htail.
      injection Hrun as -> <-.
      pose proof (get_movies_pages_tail _ _ _ _ _ _ _ _ Htail) as Hnot.
      apply IH in Htail as ->. cbn [flat_map].
      rewrite page_payload_continue, bool_decide_eq_true_2 by done.
      rewrite (page_outcome_records _ _ _ Hout), <- app_assoc. do 2 f_equal.
      apply flat_map_ext_elem. intros p Hp%elem_of_seqZ.
      rewrite page_payload_continue, bool_decide_eq_false_2 by (done || lia). done.
    + injection Hrun as <- <-. cbn [flat_map].
      rewrite page_payload_fetch, bool_decide_eq_true_2 by done.
      apply page_outcome_stop in Hout. rewrite (page_records_stop _ Hout).
      rewrite flat_map_nil_elem; [by rewrite app_nil_r|].
      intros p Hp%elem_of_seqZ.
      rewrite page_payload_fetch, bool_decide_eq_false_2 by lia. done.
    + discriminate.
Qed.

(** After a page on which the paginator's test holds, nothing more is
    requested, and the records of the earlier pages are returned. *)
Lemma get_movies_pages_stop s endpoint len lo all_movies h res es k :
  get_movies_pages server s endpoint (seqZ lo (Z.of_nat len)) all_movies h = (res, es) →
  k ∈ pages_requested endpoint es →
  no_results (page_payload endpoint k es) →
  (∀ q, q ∈ pages_requested endpoint es → q ≤ k) ∧
  res = Ok (all_movies ++
    flat_map (fun p => page_records (page_payload endpoint p es)) (seqZ lo (k - lo))).
Proof.
  revert lo all_movies h res es.
  induction len as [|len IH]; intros lo all_movies h res es Hrun Hk Hstop.
  - injection Hrun as <- <-. by apply elem_of_nil in Hk.
  - rewrite seqZ_succ_nat in Hrun.
    destruct (get_movies_pages_cons s endpoint lo (seqZ (lo + 1) (Z.of_nat len))
                all_movies h) as (rss & Hlen & Hstep).
    cbv zeta in Hstep. rewrite Hstep in Hrun. clear Hstep.
    destruct (page_outcome (fetched rss)) as [[[ms n]|]|e] eqn:Hout.
    + destruct (get_movies_pages server s endpoint _ _ _) as [r es2] eqn:Htail.
      injection Hrun as <- <-.
      pose proof (get_movies_pages_tail _ _ _ _ _ _ _ _ Htail) as Hnot.
      pose proof (get_movies_pages_requested _ _ _ _ _ _ _ _ Htail)
        as (n2 & _ & _ & _ & Hmem).
      rewrite page_payload_continue in Hstop by done.
      rewrite !pages_requested_app, pages_requested_fetch in Hk |- *.
      cbn [page_done pages_requested app] in Hk |- *.
      apply elem_of_app in Hk as [->%elem_of_replicate_inv | Hk].
      { rewrite bool_decide_eq_true_2 in Hstop by done.
        apply page_outcome_stop in Hstop. congruence. }
      assert (k ≠ lo) as Hne by (intros ->; done).
      rewrite bool_decide_eq_false_2 in Hstop by done.
      destruct (IH _ _ _ _ _ Htail Hk Hstop) as [Hmax ->]. split.
      * intros q [->%elem_of_replicate_inv | Hq]%elem_of_app; [|by apply Hmax].
        apply Hmem in Hk. lia.
      * apply Hmem in Hk. rewrite (seqZ_cons lo (k - lo)) by lia. cbn [flat_map].
        rewrite page_payload_continue, bool_decide_eq_true_2 by done.
        rewrite (page_outcome_records _ _ _ Hout), <- app_assoc.
        replace (Z.pred (k - lo)) with (k - (lo + 1)) by lia.
        replace (Z.succ lo) with (lo + 1) by lia. do 3 f_equal.
        apply flat_map_ext_elem. intros p Hp%elem_of_seqZ.
        rewrite page_payload_continue, bool_decide_eq_false_2 by (done || lia). done.
    + injection Hrun as <- <-. rewrite pages_requested_fetch in Hk |- *.
      apply elem_of_replicate_inv in Hk as ->. split.
      * by intros q ->%elem_of_replicate_inv.
      * rewrite Z.sub_diag. by rewrite app_nil_r.
    + injection Hrun as <- <-. rewrite pages_requested_fetch in Hk.
      apply elem_of_replicate_inv in Hk as ->.
      rewrite page_payload_fetch, bool_decide_eq_true_2 in Hstop by done.
      apply page_outcome_stop in Hstop. congruence.
Qed.

(** After a page that was accepted, the next page within the bound is
    requested. *)
Lemma get_movies_pages_next s endpoint len lo all_movies h res es k ms n :
  get_movies_pages server s endpoint (seqZ lo (Z.of_nat len)) all_movies h = (res, es) →
  k ∈ pages_requested endpoint es →
  page_outcome (page_payload endpoint k es) = Ok (Some (ms, n)) →
  k + 1 < lo + Z.of_nat len →
  k + 1 ∈ pages_requested endpoint es.
Proof.
  revert lo all_movies h res es.
  induction len as [|len IH]; intros lo all_movies h res es Hrun Hk Hgo Hbound.
  - injection Hrun as <- <-. by apply elem_of_nil in Hk.
  - rewrite seqZ_succ_nat in Hrun.
    destruct (get_movies_pages_cons s endpoint lo (seqZ (lo + 1) (Z.of_nat len))
                all_movies h) as (rss & Hlen & Hstep).
    cbv zeta in Hstep. rewrite Hstep in Hrun. clear Hstep.
    assert (Hlast : ∀ es', es' = attempts (listing_request s endpoint lo) rss →
      k ∈ pages_requested endpoint es' →
      page_outcome (page_payload endpoint k es') = page_outcome (fetched rss)).
    { intros es' -> Hk'. rewrite pages_requested_fetch in Hk'.
      apply elem_of_replicate_inv in Hk' as ->.
      by rewrite page_payload_fetch, bool_decide_eq_true_2. }
    destruct (page_outcome (fetched rss)) as [[[ms' n']|]|e] eqn:Hout.
    + destruct (get_movies_pages server s endpoint _ _ _) as [r es2] eqn:Htail.
      injection Hrun as <- <-.
      pose proof (get_movies_pages_tail _ _ _ _ _ _ _ _ Htail) as Hnot.
      pose proof (get_movies_pages_requested _ _ _ _ _ _ _ _ Htail)
        as (n2 & _ & Hpos & _ & Hmem).
      rewrite page_payload_continue in Hgo by done.
      rewrite !pages_requested_app, pages_requested_fetch in Hk |- *.
      cbn [page_done pages_requested app] in Hk |- *.
      apply elem_of_app. right.
      apply elem_of_app in Hk as [->%elem_of_replicate_inv | Hk].
      * apply Hmem. lia.
      * assert (k ≠ lo) as Hne by (intros ->; done).
        rewrite bool_decide_eq_false_2 in Hgo by done.
        apply (IH _ _ _ _ _ Htail Hk Hgo). lia.
    + injection Hrun as <- <-. rewrite (Hlast _ eq_refl Hk) in Hgo. discriminate.
    + injection Hrun as <- <-. rewrite (Hlast _ eq_refl Hk) in Hgo. discriminate.
Qed.

Lemma seqZ_to_nat lo len : seqZ lo len = seqZ lo (Z.of_nat (Z.to_nat len)).
Proof. unfold seqZ. by rewrite Nat2Z.id. Qed.

(** C4.  In every run of the paginator the page requests are in
    non-decreasing order and cover exactly the pages 1 to [n], for some
    [n] within the bound.  If a requested page [k] came back absent
    (or falsy) or without "results", then no page after [k] was
    requested, the call returned normally, and its result is the
    records of the pages 1 to [k - 1], in page order. *)
Theorem pagination_stops_at_first_bad_page s endpoint pages h res es :
  get_movies_from_endpoint server s endpoint pages h = (res, es) →
  StronglySorted Z.le (pages_requested endpoint es) ∧
  (∃ n, 0 ≤ n ≤ Z.max 0 pages ∧ (0 < pages → 0 < n) ∧
        ∀ p, p ∈ pages_requested endpoint es ↔ 1 ≤ p ≤ n) ∧
  (∀ k, k ∈ pages_requested endpoint es →
        no_results (page_payload endpoint k es) →
        (∀ q, q ∈ pages_requested endpoint es → q ≤ k) ∧
        res = Ok (flat_map (fun p => page_records (page_payload endpoint p es))
                    (py_range 1 k))).
Proof.
  unfold get_movies_from_endpoint, py_range. rewrite seqZ_to_nat. intros Hrun.
  destruct (get_movies_pages_requested _ _ _ _ _ _ _ _ Hrun)
    as (n & Hn & Hpos & Hsorted & Hmem).
  split; [done|]. split.
  - exists (Z.of_nat n). split; [lia|]. split; [lia|].
    intros p. rewrite Hmem. lia.
  - intros k Hk Hstop.
    destruct (get_movies_pages_stop _ _ _ _ _ _ _ _ _ Hrun Hk Hstop) as [Hmax ->].
    done.
Qed.

Lemma empty_results_outcome data :
  empty_results data → page_outcome data = Ok (Some ([], 0)).
Proof.
  intros (entries & -> & Hres). unfold page_outcome.
  destruct entries as [|kv entries]; [done|].
  cbn [truthy py_contains mbind result_bind py_getitem].
  rewrite Hres. by rewrite bool_decide_eq_true_2.
Qed.

(** C5, as the code has it.  A page that returns an empty result list
    does not end the pagination: in every run in which a requested
    page has a payload whose "results" is the empty list, the next
    page of that endpoint is requested too, provided it is within the
    bound. *)
Theorem empty_page_does_not_stop s endpoint pages h res es k :
  get_movies_from_endpoint server s endpoint pages h = (res, es) →
  k ∈ pages_requested endpoint es →
  empty_results (page_payload endpoint k es) →
  k < pages →
  k + 1 ∈ pages_requested endpoint es.
Proof.
  unfold get_movies_from_endpoint, py_range. rewrite seqZ_to_nat.
  intros Hrun Hk Hempty%empty_results_outcome Hlt.
  apply (get_movies_pages_next _ _ _ _ _ _ _ _ _ _ _ Hrun Hk Hempty). lia.
Qed.

End Paginator.

Lemma pagination_stops_at_first_bad_page_witness :
  let run := get_movies_from_endpoint Sample.server Sample.sess "/movie/popular" 30 [] in
  (∀ q, q ∈ pages_requested "/movie/popular" (snd run) → q ≤ 4) ∧
  fst run = Ok [Sample.alpha; Sample.beta; Sample.gamma; Sample.alpha].
Proof.
  intros run.
  destruct (pagination_stops_at_first_bad_page Sample.server Sample.sess
              "/movie/popular" 30 [] (fst run) (snd run) (surjective_pairing _))
    as (_ & _ & Hstop).
  apply (Hstop 4).
  - apply (bool_decide_unpack _). vm_compute. exact I.
  - right. vm_compute. reflexivity.
Defined.

(** C5, as the specification words it, fails: with a service whose
    pages all hold an empty result list, page 2 is requested after
    page 1. *)
Lemma empty_results_page_is_followed :
  ¬ (∀ server s endpoint pages h res es k,
       get_movies_from_endpoint server s endpoint pages h = (res, es) →
       k ∈ pages_requested endpoint es →
       empty_results (page_payload endpoint k es) →
       ∀ q, q ∈ pages_requested endpoint es → q ≤ k).
Proof.
  intros Hclaim.
  set (run := get_movies_from_endpoint Sample.empty_server Sample.sess
                "/movie/popular" 2 []).
  enough (2 ≤ 1) by lia.
  apply (Hclaim Sample.empty_server Sample.sess "/movie/popular" 2 []
           (fst run) (snd run) 1 (surjective_pairing _)).
  - apply (bool_decide_unpack _). vm_compute. exact I.
  - exists [("page", PInt 1); ("results", PList [])]. split; vm_compute; reflexivity.
  - apply (bool_decide_unpack _). vm_compute. exact I.
Qed.

Lemma empty_page_does_not_stop_witness :
  let run := get_movies_from_endpoint Sample.server Sample.sess "/movie/popular" 30 [] in
  3 ∈ pages_requested "/movie/popular" (snd run).
Proof.
  intros run.
  apply (empty_page_does_not_stop Sample.server Sample.sess "/movie/popular" 30 []
           (fst run) (snd run) 2 (surjective_pairing _)).
  - apply (bool_decide_unpack _). vm_compute. exact I.
  - exists [("page", PInt 2); ("results", PList [])]. split; vm_compute; reflexivity.
  - lia.
Defined.


(** ** Rules for [spec] *)

Lemma spec_run {A} (m : M A) post exc h r es :
  spec m post exc → m h = (r, es) →
  match r with Ok a => post a es | Raise _ => exc es end.
Proof. intros Hs Hm. specialize (Hs h). by rewrite Hm in Hs. Qed.

Lemma spec_intro {A} (m : M A) (post : A → list event → Prop) (exc : list event → Prop) :
  (∀ h r es, m h = (r, es) → match r with Ok a => post a es | Raise _ => exc es end) →
  spec m post exc.
Proof.
  intros H h. destruct (m h) as [r es] eqn:Hm. apply H in Hm. by destruct r.
Qed.

Lemma spec_weaken {A} (m : M A) (post post' : A → list event → Prop)
    (exc exc' : list event → Prop) :
  spec m post exc →
  (∀ a es, post a es → post' a es) → (∀ es, exc es → exc' es) →
  spec m post' exc'.
Proof.
  intros Hm Hpost Hexc h. specialize (Hm h).
  destruct (m h) as [[a|e] es]; auto.
Qed.

Lemma spec_ret {A} (a : A) (post : A → list event → Prop) exc :
  post a [] → spec (ret a) post exc.
Proof. intros H h. exact H. Qed.

Lemma spec_lift {A} (x : result A) (post : A → list event → Prop) (exc : list event → Prop) :
  match x with Ok a => post a [] | Raise _ => exc [] end → spec (lift x) post exc.
Proof. intros H h. unfold lift. by destruct x. Qed.

Lemma spec_emit ev (post : () → list event → Prop) exc :
  post () [ev] → spec (emit ev) post exc.
Proof. intros H h. exact H. Qed.

Lemma spec_bind {A B} (m : M A) (f : A → M B) (mid : A → list event → Prop)
    (post : B → list event → Prop) (exc : list event → Prop) :
  spec m mid exc →
  (∀ a es1, mid a es1 →
     spec (f a) (fun b es2 => post b (es1 ++ es2)) (fun es2 => exc (es1 ++ es2))) →
  spec (bind m f) post exc.
Proof.
  intros Hm Hf h. unfold bind. specialize (Hm h).
  destruct (m h) as [[a|e] es1]; [|done].
  specialize (Hf a es1 Hm (h ++ es1)).
  by destruct (f a (h ++ es1)) as [[b|e] es2].
Qed.

Lemma emits_ret {A} Q (a : A) : closed Q → emits Q (ret a).
Proof. intros [Hnil _]. by apply spec_ret. Qed.

Lemma emits_lift {A} Q (x : result A) : closed Q → emits Q (lift x).
Proof. intros [Hnil _]. apply spec_lift. by destruct x. Qed.

Lemma emits_bind {A B} Q (m : M A) (f : A → M B) :
  closed Q → emits Q m → (∀ a, emits Q (f a)) → emits Q (bind m f).
Proof.
  intros [_ Happ] Hm Hf. apply (spec_bind _ _ (fun _ => Q)); [done|].
  intros a es1 H1. eapply spec_weaken; [apply Hf | |]; simpl; auto.
Qed.

Lemma only_closed P : closed (only P).
Proof.
  split; [constructor|]. intros es1 es2 H1 H2. by apply Forall_app.
Qed.

Lemma only_attempts (P : request → Prop) rq rss : P rq → only P (attempts rq rss).
Proof.
  intros HP. unfold only, attempts. induction rss as [|rs rss IH]; [constructor|].
  simpl. constructor; [done|]. destruct (success rs); [done|]. by constructor.
Qed.

Lemma only_weaken (P Q : request → Prop) es :
  (∀ rq, P rq → Q rq) → only P es → only Q es.
Proof.
  intros HPQ Hes. unfold only in *. eapply Forall_impl; [exact Hes|].
  intros [rq rs| | |]; auto.
Qed.

Lemma only_csv P es : only P es → csv_writes es = [].
Proof.
  induction 1 as [|[rq rs| | |] es Hev _ IH]; try done.
Qed.

Lemma only_pages_requested P endpoint es :
  (∀ rq, P rq → page_request endpoint rq = None) →
  only P es → pages_requested endpoint es = [].
Proof.
  intros HP. induction 1 as [|[rq rs| | |] es Hev _ IH]; try done.
  simpl. by rewrite (HP _ Hev).
Qed.

Lemma emits_print P text : emits (only P) (print text).
Proof. apply spec_emit. by constructor. Qed.

Lemma emits_sleep P ms : emits (only P) (sleep ms).
Proof. apply spec_emit. by constructor. Qed.

Lemma page_request_no_params endpoint rq :
  req_params rq = None → page_request endpoint rq = None.
Proof. unfold page_request. intros ->. by destruct (req_url rq) as [|[] []]. Qed.

Lemma page_request_other s endpoint endpoint' page :
  endpoint ≠ endpoint' →
  page_request endpoint' (listing_request s endpoint page) = None.
Proof.
  intros Hne. unfold page_request, listing_request, lit. cbn [req_url req_params].
  rewrite bool_decide_eq_false_2; [done|]. intros [Heq _].
  by apply (inj (String.app BASE_URL)) in Heq.
Qed.

Section Aggregation.

Variable server : list event → request → response.

Lemma safe_get_only (P : request → Prop) s url params :
  P (Request s url params 15) → emits (only P) (safe_get server s url params).
Proof.
  intros HP h. destruct (safe_get_run server s url params h) as (rss & _ & ->).
  by apply only_attempts.
Qed.

Lemma get_genres_only s :
  emits (only (fun rq => req_params rq = None)) (get_genres server s).
Proof.
  pose proof (only_closed (fun rq => req_params rq = None)) as Hc.
  unfold get_genres. apply emits_bind; [done | by apply safe_get_only |].
  intros data. destruct (truthy data); [|by apply emits_ret].
  apply emits_bind; [done | by apply emits_lift |].
  intros []; [by apply emits_lift | by apply emits_ret].
Qed.

Lemma get_movie_credits_only s movie_id :
  emits (only (fun rq => req_params rq = None)) (get_movie_credits server s movie_id).
Proof.
  pose proof (only_closed (fun rq => req_params rq = None)) as Hc.
  unfold get_movie_credits. apply emits_bind; [done | by apply safe_get_only |].
  intros data. destruct (truthy data); [by apply emits_lift | by apply emits_ret].
Qed.

Lemma build_row_only s genre_map m :
  emits (only (fun rq => req_params rq = None)) (build_row server s genre_map m).
Proof.
  pose proof (only_closed (fun rq => req_params rq = None)) as Hc.
  unfold build_row.
  repeat (apply emits_bind; [done | by apply emits_lift | intros ?]).
  apply emits_bind; [done | apply get_movie_credits_only | intros ?].
  apply emits_bind; [done | by apply emits_lift | intros ?].
  by apply emits_ret.
Qed.

Lemma build_rows_only s genre_map total i movies rows :
  emits (only (fun rq => req_params rq = None))
    (build_rows server s genre_map total i movies rows).
Proof.
  pose proof (only_closed (fun rq => req_params rq = None)) as Hc.
  revert i rows. induction movies as [|m movies IH]; intros i rows.
  - by apply emits_ret.
  - cbn [build_rows].
    apply emits_bind; [done | apply build_row_only | intros r].
    apply emits_bind; [done | apply emits_print | intros _].
    apply emits_bind; [done | apply emits_sleep | intros _].
    apply IH.
Qed.

Lemma get_movies_pages_only s endpoint pages all_movies :
  emits (only (fun rq => ∃ page, rq = listing_request s endpoint page))
    (get_movies_pages server s endpoint pages all_movies).
Proof.
  pose proof (only_closed (fun rq => ∃ page, rq = listing_request s endpoint page)) as Hc.
  revert all_movies. induction pages as [|page pages IH]; intros all_movies.
  - by apply emits_ret.
  - cbn [get_movies_pages].
    apply emits_bind; [done | apply safe_get_only; by exists page | intros data].
    destruct (truthy data); [|by apply emits_ret].
    apply emits_bind; [done | by apply emits_lift | intros has].
    destruct has; [|by apply emits_ret].
    do 3 (apply emits_bind; [done | by apply emits_lift | intros ?]).
    apply emits_bind; [done | apply emits_print | intros _].
    apply emits_bind; [done | apply emits_sleep | intros _].
    apply IH.
Qed.

Lemma emits_only_weaken {A} (P Q : request → Prop) (m : M A) :
  (∀ rq, P rq → Q rq) → emits (only P) m → emits (only Q) m.
Proof.
  intros HPQ Hm. eapply spec_weaken; [exact Hm | |]; simpl.
  - intros _ es. by apply only_weaken.
  - intros es. by apply only_weaken.
Qed.

Lemma collect_only s endpoints all_movies seen :
  emits (only (fun rq => ∃ endpoint page,
                 endpoint ∈ endpoints ∧ rq = listing_request s endpoint page))
    (collect server s endpoints all_movies seen).
Proof.
  revert all_movies seen. induction endpoints as [|endpoint endpoints IH];
    intros all_movies seen.
  - apply emits_ret, only_closed.
  - pose proof (only_closed (fun rq => ∃ endpoint' page,
      endpoint' ∈ endpoint :: endpoints ∧ rq = listing_request s endpoint' page)) as Hc.
    cbn [collect].
    apply emits_bind; [done | apply emits_print | intros _].
    apply emits_bind; [done | | intros movies].
    { eapply emits_only_weaken; [|apply get_movies_pages_only].
      intros rq [page ->]. exists endpoint, page. split; [left | done]. }
    apply emits_bind; [done | by apply emits_lift | intros st].
    eapply emits_only_weaken; [|apply IH].
    intros rq (endpoint' & page & Hin & ->). exists endpoint', page.
    split; [by right | done].
Qed.

(** *** Deduplication against the specification's wording *)

Lemma first_seen_app earlier movies1 movies2 :
  first_seen earlier (movies1 ++ movies2)
    = first_seen earlier movies1 ++ first_seen (earlier ++ movies1) movies2.
Proof.
  revert earlier. induction movies1 as [|m movies1 IH]; intros earlier.
  - by rewrite app_nil_r.
  - cbn [app first_seen]. rewrite IH, <- app_assoc. by case_bool_decide.
Qed.

Lemma first_seen_elem earlier movies m :
  m ∈ first_seen earlier movies → m ∈ movies ∧ movie_key m ∉ movie_key <$> earlier.
Proof.
  revert earlier. induction movies as [|m' movies IH]; intros earlier.
  - by intros ?%elem_of_nil.
  - cbn [first_seen]. case_bool_decide as Hin.
    + intros [Hm Hkey]%IH. split; [by right|].
      rewrite fmap_app, elem_of_app in Hkey. tauto.
    + intros [-> | [Hm Hkey]%IH]%elem_of_cons; [split; [by left | done]|].
      split; [by right|]. rewrite fmap_app, elem_of_app in Hkey. tauto.
Qed.

Lemma first_seen_NoDup earlier movies :
  NoDup (movie_key <$> first_seen earlier movies).
Proof.
  revert earlier. induction movies as [|m movies IH]; intros earlier.
  - constructor.
  - cbn [first_seen]. case_bool_decide as Hin; [apply IH|].
    rewrite fmap_cons. apply NoDup_cons. split; [|apply IH].
    intros (m' & Heq & [_ Hkey]%first_seen_elem)%list_elem_of_fmap.
    apply Hkey. rewrite fmap_app, elem_of_app. right.
    rewrite <- Heq. apply list_elem_of_here.
Qed.

(** The loop with its set computes what the wording asks for. *)
Lemma dedup_first_seen movies all_movies seen earlier all_movies' seen' :
  dedup movies all_movies seen = Ok (all_movies', seen') →
  seen_of seen earlier →
  all_movies' = all_movies ++ first_seen earlier movies ∧
  seen_of seen' (earlier ++ movies) ∧
  Forall keyed movies.
Proof.
  unfold seen_of. revert all_movies seen earlier.
  induction movies as [|m movies IH]; intros all_movies seen earlier Hd Hseen.
  - injection Hd as <- <-. by rewrite !app_nil_r.
  - cbn [dedup] in Hd.
    destruct (py_getitem m "id") as [v|] eqn:Hv; [|discriminate].
    cbn [mbind result_bind] in Hd.
    destruct (key_of v) as [k|] eqn:Hk; [|discriminate].
    cbn [mbind result_bind] in Hd.
    assert (Hmk : movie_key m = Ok k) by (unfold movie_key; by rewrite Hv).
    assert (Hkeyed : keyed m) by (by exists k).
    cbn [first_seen]. rewrite Hmk.
    case_bool_decide as Hin.
    + rewrite bool_decide_eq_true_2 by (by apply Hseen).
      destruct (IH _ _ (earlier ++ [m]) Hd) as (-> & Hseen' & Hall).
      { intros k'. rewrite fmap_app, elem_of_app, <- Hseen. cbn [fmap list_fmap].
        rewrite Hmk, list_elem_of_singleton. split; [tauto|].
        intros [?|[= ->]]; done. }
      rewrite <- app_assoc in Hseen'. by split; [|split; [|constructor]].
    + rewrite bool_decide_eq_false_2 by (by rewrite <- Hseen).
      destruct (IH _ _ (earlier ++ [m]) Hd) as (-> & Hseen' & Hall).
      { intros k'. rewrite fmap_app, elem_of_app, <- Hseen. cbn [fmap list_fmap].
        rewrite Hmk, list_elem_of_singleton, elem_of_union, elem_of_singleton.
        split; [intros [->|?]; auto | intros [?|[= ->]]; auto]. }
      rewrite <- !app_assoc in *. by split; [|split; [|constructor]].
Qed.

(** *** The records of an endpoint within a longer run *)

Lemma page_payload_frame endpoint page es1 es2 es3 :
  pages_requested endpoint es1 = [] →
  pages_requested endpoint es3 = [] →
  page_payload endpoint page (es1 ++ es2 ++ es3) = page_payload endpoint page es2.
Proof.
  intros H1 H3. unfold page_payload. rewrite !responses_app.
  rewrite (responses_not_requested endpoint page es1)
    by (rewrite H1; apply not_elem_of_nil).
  rewrite (responses_not_requested endpoint page es3)
    by (rewrite H3; apply not_elem_of_nil).
  by rewrite app_nil_r.
Qed.

Lemma listed_frame endpoint es1 es2 es3 :
  pages_requested endpoint es1 = [] →
  pages_requested endpoint es3 = [] →
  listed endpoint (es1 ++ es2 ++ es3) = listed endpoint es2.
Proof.
  intros H1 H3. unfold listed. apply flat_map_ext_elem. intros page _.
  by rewrite page_payload_frame.
Qed.

Lemma get_movies_from_endpoint_listed s endpoint h movies es :
  get_movies_from_endpoint server s endpoint PAGES_PER_ENDPOINT h = (Ok movies, es) →
  movies = listed endpoint es.
Proof.
  unfold get_movies_from_endpoint, listed, py_range. rewrite seqZ_to_nat.
  intros Hrun. by apply get_movies_pages_records in Hrun.
Qed.

Lemma listed_prefix endpoint es1 es2 :
  pages_requested endpoint es1 = [] →
  listed endpoint (es1 ++ es2) = listed endpoint es2.
Proof.
  intros H1. rewrite <- (app_nil_r es2) at 1. by apply listed_frame.
Qed.

Lemma listed_all_frame endpoints es1 es2 es3 :
  (∀ endpoint, pages_requested endpoint es1 = []) →
  (∀ endpoint, pages_requested endpoint es3 = []) →
  listed_all endpoints (es1 ++ es2 ++ es3) = listed_all endpoints es2.
Proof.
  intros H1 H3. unfold listed_all. apply flat_map_ext_elem. intros endpoint _.
  by apply listed_frame.
Qed.

(** *** The aggregation loop *)

Lemma collect_ok s endpoints all_movies seen h st es earlier :
  NoDup endpoints →
  collect server s endpoints all_movies seen h = (Ok st, es) →
  seen_of seen earlier →
  fst st = all_movies ++ first_seen earlier (listed_all endpoints es) ∧
  Forall keyed (listed_all endpoints es).
Proof.
  revert all_movies seen h st es earlier.
  induction endpoints as [|endpoint endpoints IH];
    intros all_movies seen h st es earlier Hnd Hrun Hseen.
  - injection Hrun as <- <-. cbn. by rewrite app_nil_r.
  - cbn [collect] in Hrun.
    apply bind_ok_inv in Hrun as ([] & es0 & es' & Hprint & Hrun & ->).
    injection Hprint as <-.
    apply bind_ok_inv in Hrun as (movies & es1 & es2 & Hpag & Hrun & ->).
    apply bind_lift_inv in Hrun as ([all_movies1 seen1] & Hdedup & Hrun).
    cbn [fst snd] in Hrun.
    apply NoDup_cons in Hnd as [Hnotin Hnd].
    pose proof (spec_run _ _ _ _ _ _ (get_movies_pages_only s endpoint _ _) Hpag)
      as Honly1. cbv beta iota in Honly1.
    pose proof (spec_run _ _ _ _ _ _ (collect_only s endpoints _ _) Hrun)
      as Honly2. cbv beta iota in Honly2.
    pose proof (get_movies_from_endpoint_listed _ _ _ _ _ Hpag) as ->.
    destruct (dedup_first_seen _ _ _ _ _ _ Hdedup Hseen) as (-> & Hseen1 & Hkeyed).
    destruct (IH _ _ _ _ _ _ Hnd Hrun Hseen1) as (-> & Hkeyed').
    assert (H2 : pages_requested endpoint es2 = []).
    { eapply only_pages_requested; [|exact Honly2].
      intros rq (endpoint' & page & Hin & ->). apply page_request_other.
      by intros ->. }
    assert (H1 : ∀ endpoint', endpoint' ∈ endpoints →
                 pages_requested endpoint' es1 = []).
    { intros endpoint' Hin. eapply only_pages_requested; [|exact Honly1].
      intros rq [page ->]. apply page_request_other. by intros ->. }
    assert (Hall : listed_all (endpoint :: endpoints)
                     ([EvPrint [PStr "📥 Get data from "; PStr endpoint; PStr " ..."]]
                        ++ es1 ++ es2)
                   = listed endpoint es1 ++ listed_all endpoints es2).
    { unfold listed_all. cbn [flat_map]. f_equal.
      - by apply listed_frame.
      - apply flat_map_ext_elem. intros endpoint' Hin.
        rewrite (app_assoc _ es1 es2). apply listed_prefix.
        rewrite pages_requested_app. by rewrite (H1 _ Hin). }
    rewrite Hall. split.
    + by rewrite first_seen_app, <- app_assoc.
    + by apply Forall_app.
Qed.

(** *** The row loop *)

Lemma build_row_built_from s genre_map m h r es :
  build_row server s genre_map m h = (Ok r, es) → built_from genre_map m r.
Proof.
  intros (gids & gs & genres & credits & Hid & Htitle & Hoverview & Hdate & Hvote
          & Hgids & Hgs & Hres & Hposter & _ & Hjoin & _)%build_row_ok.
  unfold built_from. rewrite Hgids. cbn [mbind result_bind].
  rewrite Hgs. cbn [mbind result_bind]. rewrite Hres. cbn [mbind result_bind].
  done.
Qed.

Lemma build_rows_ok s genre_map total movies i rows h rows' es :
  build_rows server s genre_map total i movies rows h = (Ok rows', es) →
  ∃ new, rows' = rows ++ new ∧ Forall2 (built_from genre_map) movies new.
Proof.
  revert i rows h es. induction movies as [|m movies IH]; intros i rows h es Hrun.
  - injection Hrun as <- <-. exists []. by rewrite app_nil_r.
  - cbn [build_rows] in Hrun.
    apply bind_ok_inv in Hrun as (r & es1 & es2 & Hrow & Hrun & ->).
    apply bind_ok_inv in Hrun as ([] & es3 & es4 & _ & Hrun & ->).
    apply bind_ok_inv in Hrun as ([] & es5 & es6 & _ & Hrun & ->).
    apply IH in Hrun as (new & -> & Hnew).
    exists (r :: new). split; [by rewrite <- app_assoc|].
    constructor; [|done]. by eapply build_row_built_from.
Qed.

End Aggregation.

(** ** The whole run *)

Lemma spec_bind_closed {A B} (m : M A) (f : A → M B) (mid : A → list event → Prop)
    (post : B → list event → Prop) (exc : list event → Prop) :
  closed exc →
  spec m mid exc →
  (∀ a es1, mid a es1 →
     exc es1 ∧ spec (f a) (fun b es2 => post b (es1 ++ es2)) exc) →
  spec (bind m f) post exc.
Proof.
  intros [_ Happ] Hm Hf. apply (spec_bind _ _ mid); [done|].
  intros a es1 [Hexc Hfa]%Hf. eapply spec_weaken; [exact Hfa | done |].
  intros es2. by apply Happ.
Qed.

Lemma no_csv_closed : closed (fun es => csv_writes es = []).
Proof.
  split; [done|]. intros es1 es2 H1 H2. by rewrite csv_writes_app, H1, H2.
Qed.

Lemma key_of_row_id genre_map m r :
  built_from genre_map m r → keyed m → key_of (row_id r) = movie_key m.
Proof.
  intros (Hid & _) [k Hk]. unfold movie_key in *.
  destruct m as [| | | | |entries]; try discriminate. cbn in *.
  destruct (entry "id" entries) as [v|]; [|discriminate].
  by injection Hid as <-.
Qed.

(** What a whole run amounts to: it writes nothing, or it ends
    normally after writing once, to [SAVE_FILE], the rows made from the
    first-seen records of the listings, in their order. *)
Lemma main_run API_KEY server :
  spec (main API_KEY server)
    (fun _ es =>
       csv_writes es = [] ∨
       ∃ genre_map rows,
         csv_writes es = [(SAVE_FILE, rows)] ∧
         Forall2 (built_from genre_map)
           (first_seen [] (listed_all ENDPOINTS es)) rows ∧
         Forall keyed (listed_all ENDPOINTS es))
    (fun es => csv_writes es = []).
Proof.
  pose proof no_csv_closed as Hc.
  unfold main.
  destruct (match API_KEY with
            | Some k => bool_decide (k = "") || bool_decide (k = "YOUR_API_KEY_HERE")
            | None => true
            end).
  { apply spec_emit. by left. }
  cbv zeta. unfold print at 1.
  apply (spec_bind_closed _ _ (fun _ es => ∃ text, es = [EvPrint text]));
    [done | apply spec_emit; eauto | intros _ es0 [text0 ->]; split; [done|]].
  apply (spec_bind_closed _ _ (fun _ es => only (fun rq => req_params rq = None) es));
    [done | | intros genre_map es1 Hes1; split; [by eapply only_csv|]].
  { eapply spec_weaken; [apply get_genres_only | done |]. apply only_csv. }
  unfold print at 1.
  apply (spec_bind_closed _ _ (fun _ es => ∃ text, es = [EvPrint text]));
    [done | apply spec_emit; eauto | intros _ es2 [text2 ->]; split; [done|]].
  apply (spec_bind_closed _ _ (fun st es =>
      fst st = first_seen [] (listed_all ENDPOINTS es) ∧
      Forall keyed (listed_all ENDPOINTS es) ∧
      csv_writes es = []));
    [done | | intros st es3 (Hst & Hkeyed & Hes3); split; [done|]].
  { apply spec_intro. intros h r es Hrun.
    pose proof (spec_run _ _ _ _ _ _ (collect_only server _ ENDPOINTS _ _) Hrun)
      as Honly.
    destruct r as [st|e]; [|by eapply only_csv].
    destruct (collect_ok server (create_session API_KEY) ENDPOINTS [] ∅ h st es [])
      as [Hst Hkeyed];
      [apply (bool_decide_unpack _); vm_compute; exact I | done | |].
    { intros k. split; [by intros ?%elem_of_empty | by intros ?%elem_of_nil]. }
    split; [done|]. split; [done|]. by eapply only_csv. }
  unfold print at 1.
  apply (spec_bind_closed _ _ (fun _ es => ∃ text, es = [EvPrint text]));
    [done | apply spec_emit; eauto | intros _ es4 [text4 ->]; split; [done|]].
  apply (spec_bind_closed _ _ (fun rows es =>
      only (fun rq => req_params rq = None) es ∧
      Forall2 (built_from genre_map) (fst st) rows));
    [done | | intros rows es5 [Hes5 Hrows]; split; [by eapply only_csv|]].
  { apply spec_intro. intros h r es Hrun.
    pose proof (spec_run _ _ _ _ _ _ (build_rows_only server _ _ _ _ _ _) Hrun)
      as Honly.
    destruct r as [rows|e]; [|by eapply only_csv].
    split; [done|]. apply build_rows_ok in Hrun as (new & -> & Hnew). done. }
  apply (spec_bind _ _ (fun _ es => es = [EvToCsv SAVE_FILE rows]));
    [by apply spec_emit | intros _ es6 ->].
  apply spec_emit. right. exists genre_map, rows.
  assert (Hquiet : ∀ es, only (fun rq => req_params rq = None) es →
                   ∀ endpoint, pages_requested endpoint es = []).
  { intros es Hes endpoint. eapply only_pages_requested; [|exact Hes].
    intros rq. apply page_request_no_params. }
  assert (Hlisted :
    listed_all ENDPOINTS
      ([EvPrint text0] ++ es1 ++ [EvPrint text2] ++ es3 ++ [EvPrint text4] ++ es5 ++
       [EvToCsv SAVE_FILE rows] ++
       [EvPrint [PStr (newline +:+ "✅ Data saved to "); PStr SAVE_FILE; PStr " (";
                 PInt (Z.of_nat (length rows)); PStr " film)."]])
    = listed_all ENDPOINTS es3).
  { rewrite (app_assoc es1), (app_assoc [EvPrint text0]).
    apply listed_all_frame; intros endpoint.
    - rewrite !pages_requested_app, (Hquiet _ Hes1). done.
    - rewrite !pages_requested_app, (Hquiet _ Hes5). done. }
  rewrite Hlisted, <- Hst. split; [|done].
  rewrite !csv_writes_app, (only_csv _ _ Hes1), Hes3, (only_csv _ _ Hes5). done.
Qed.

Lemma first_seen_covers earlier movies m :
  m ∈ movies →
  movie_key m ∈ movie_key <$> earlier ∨
  movie_key m ∈ movie_key <$> first_seen earlier movies.
Proof.
  revert earlier. induction movies as [|m' movies IH]; intros earlier.
  - by intros ?%elem_of_nil.
  - cbn [first_seen]. intros [-> | Hin]%elem_of_cons.
    + case_bool_decide; [by left|]. right. rewrite fmap_cons. apply list_elem_of_here.
    + destruct (IH (earlier ++ [m']) Hin) as [Hearlier | Hkept].
      * rewrite fmap_app, elem_of_app in Hearlier.
        destruct Hearlier as [? | ->%list_elem_of_singleton]; [by left|].
        case_bool_decide; [by left|]. right. rewrite fmap_cons. apply list_elem_of_here.
      * right. case_bool_decide; [done|]. rewrite fmap_cons. by right.
Qed.

Lemma first_seen_first movies1 m movies2 :
  movie_key m ∉ movie_key <$> movies1 →
  m ∈ first_seen [] (movies1 ++ m :: movies2).
Proof.
  intros Hnew. rewrite first_seen_app, app_nil_l. cbn [first_seen].
  rewrite bool_decide_eq_false_2 by done.
  apply elem_of_app. right. apply list_elem_of_here.
Qed.

Lemma rows_keys genre_map movies rows :
  Forall2 (built_from genre_map) movies rows →
  Forall keyed movies →
  (fun r => key_of (row_id r)) <$> rows = movie_key <$> movies.
Proof.
  induction 1 as [|m r movies rows Hbuilt _ IH]; [done|].
  intros [Hm Hall]%Forall_cons. rewrite !fmap_cons.
  by rewrite (key_of_row_id _ _ _ Hbuilt Hm), IH.
Qed.

Lemma first_seen_keyed movies : Forall keyed movies → Forall keyed (first_seen [] movies).
Proof.
  rewrite !Forall_forall. intros Hall m [Hin _]%first_seen_elem. by apply Hall.
Qed.

(** C1.  Whenever a run writes the file, the identifiers of its rows
    are pairwise different, also as members of a Python set (where
    [True] is 1), and the identifier of every record the listings
    delivered, on whatever endpoint and page, is the identifier of a
    row: each identifier makes exactly one row. *)
Theorem output_ids_unique API_KEY server h path rows :
  (path, rows) ∈ csv_writes (snd (main API_KEY server h)) →
  NoDup ((fun r => key_of (row_id r)) <$> rows) ∧
  ∀ m, m ∈ listed_all ENDPOINTS (snd (main API_KEY server h)) →
       movie_key m ∈ (fun r => key_of (row_id r)) <$> rows.
Proof.
  pose proof (main_run API_KEY server h) as Hrun.
  destruct (main API_KEY server h) as [[[]|e] es]; cbn [snd].
  - destruct Hrun as [-> | (genre_map & rows' & -> & Hrows & Hkeyed)];
      [by intros ?%elem_of_nil|].
    intros [= -> ->]%list_elem_of_singleton.
    rewrite (rows_keys _ _ _ Hrows (first_seen_keyed _ Hkeyed)). split.
    + apply first_seen_NoDup.
    + intros m Hin.
      destruct (first_seen_covers [] _ _ Hin) as [?%elem_of_nil | Hkept]; done.
  - rewrite Hrun. by intros ?%elem_of_nil.
Qed.

Lemma output_ids_unique_witness :
  NoDup ((fun r => key_of (row_id r)) <$> Sample.rows) ∧
  ∀ m, m ∈ listed_all ENDPOINTS (snd (main Sample.api_key Sample.server [])) →
       movie_key m ∈ (fun r => key_of (row_id r)) <$> Sample.rows.
Proof.
  apply (output_ids_unique Sample.api_key Sample.server [] SAVE_FILE Sample.rows).
  vm_compute. apply list_elem_of_here.
Defined.

(** C6.  Whenever a run writes the file, its rows are, one for one and
    in the same order, made from the first-seen records of the combined
    sequence: the listings endpoint by endpoint in the configured
    order, each page by page.  So the first record with a given
    identifier in that sequence, the one met while processing the
    earlier endpoint, is the record a row is made from. *)
Theorem rows_in_first_seen_order API_KEY server h path rows :
  (path, rows) ∈ csv_writes (snd (main API_KEY server h)) →
  let combined := listed_all ENDPOINTS (snd (main API_KEY server h)) in
  ∃ genre_map,
    Forall2 (built_from genre_map) (first_seen [] combined) rows ∧
    ∀ before m after,
      combined = before ++ m :: after →
      movie_key m ∉ movie_key <$> before →
      ∃ r, r ∈ rows ∧ built_from genre_map m r.
Proof.
  pose proof (main_run API_KEY server h) as Hrun.
  destruct (main API_KEY server h) as [[[]|e] es]; cbn [snd].
  - destruct Hrun as [-> | (genre_map & rows' & -> & Hrows & Hkeyed)];
      [by intros ?%elem_of_nil|].
    intros [= -> ->]%list_elem_of_singleton. cbv zeta.
    exists genre_map. split; [done|].
    intros before m after Heq Hnew. rewrite Heq in Hrows.
    pose proof (first_seen_first before m after Hnew) as Hin.
    apply list_elem_of_lookup in Hin as [i Hi].
    destruct (Forall2_lookup_l _ _ _ _ _ Hrows Hi) as (r & Hr & Hbuilt).
    exists r. split; [|done]. by eapply list_elem_of_lookup_2.
  - rewrite Hrun. by intros ?%elem_of_nil.
Qed.

Lemma rows_in_first_seen_order_witness :
  ∃ genre_map,
    Forall2 (built_from genre_map)
      [Sample.alpha; Sample.beta; Sample.gamma; Sample.delta] Sample.rows.
Proof.
  destruct (rows_in_first_seen_order Sample.api_key Sample.server [] SAVE_FILE Sample.rows)
    as (genre_map & Hrows & _).
  { vm_compute. apply list_elem_of_here. }
  exists genre_map. exact Hrows.
Defined.

(** The sample run: [beta] is listed by both endpoints and [alpha] by
    two pages of the first one; the rows come from the first records. *)
Example sample_run :
  fst (main Sample.api_key Sample.server []) = Ok () ∧
  csv_writes (snd (main Sample.api_key Sample.server [])) = [(SAVE_FILE, Sample.rows)] ∧
  listed_all ENDPOINTS (snd (main Sample.api_key Sample.server []))
    = [Sample.alpha; Sample.beta; Sample.gamma; Sample.alpha;
       Sample.beta_again; Sample.delta] ∧
  pages_requested "/movie/top_rated" (snd (main Sample.api_key Sample.server []))
    = [1; 1; 2; 2; 2].
Proof. vm_compute. done. Qed.

(** * Beyond the claims *)

(** ** The genre list *)

Section Genres.

Variable server : list event → request → response.

(** [get_genres] is the fetch followed by [genre_map_of]. *)
Lemma get_genres_fetch s h data es :
  safe_get server s (lit (BASE_URL +:+ "/genre/movie/list")) None h = (Ok data, es) →
  get_genres server s h = (genre_map_of data, es).
Proof.
  intros Hget. unfold get_genres, genre_map_of, bind at 1. rewrite Hget.
  destruct (truthy data); [|by unfold ret; rewrite app_nil_r].
  unfold bind at 1, lift at 1.
  destruct (py_contains "genres" data) as [[]|]; cbn [mbind result_bind];
    unfold lift, ret; by rewrite ?app_nil_r.
Qed.

(** The loop over a genre list whose entries all have a name and a
    hashable id inserts the pairs one after the other. *)
Lemma fill_genre_map_pairs gs pairs genre_map :
  Forall2 (fun g p => genre_pair g = Ok p) gs pairs →
  fill_genre_map gs genre_map
    = Ok (foldl (fun m p => <[p.1 := p.2]> m) genre_map pairs).
Proof.
  intros Hall. revert genre_map.
  induction Hall as [|g [k name] gs pairs Hg _ IH]; intros genre_map; [done|].
  cbn [fill_genre_map foldl]. unfold genre_pair in Hg.
  destruct (py_getitem g "name") as [name'|]; [|discriminate].
  cbn [mbind result_bind] in *.
  destruct (py_getitem g "id") as [gid|]; [|discriminate].
  cbn [mbind result_bind] in *.
  destruct (key_of gid) as [k'|]; [|discriminate].
  cbn [mbind result_bind] in *. injection Hg as -> ->. apply IH.
Qed.

Lemma foldl_insert_other (pairs : list (key * pyval)) (genre_map : gmap key pyval) k :
  k ∉ pairs.*1 →
  foldl (fun m p => <[p.1 := p.2]> m) genre_map pairs !! k = genre_map !! k.
Proof.
  revert genre_map. induction pairs as [|[k' name] pairs IH]; intros genre_map; [done|].
  rewrite fmap_cons. intros [Hne Hnot]%not_elem_of_cons. cbn [foldl].
  rewrite IH by done. by apply lookup_insert_ne.
Qed.

Lemma foldl_insert_last (before after : list (key * pyval)) (genre_map : gmap key pyval)
    k name :
  k ∉ after.*1 →
  foldl (fun m p => <[p.1 := p.2]> m) genre_map (before ++ (k, name) :: after) !! k
    = Some name.
Proof.
  intros Hnot. rewrite foldl_app. cbn [foldl].
  rewrite foldl_insert_other by done. apply lookup_insert_eq.
Qed.

(** X1.  When the fetch of the genre list gives nothing (all attempts
    failed, or the payload is falsy) or a payload without "genres",
    [get_genres] returns the empty map: it does not raise and does
    nothing beyond the fetch. *)
Theorem get_genres_empty s h data es :
  safe_get server s (lit (BASE_URL +:+ "/genre/movie/list")) None h = (Ok data, es) →
  truthy data = false ∨ py_contains "genres" data = Ok false →
  get_genres server s h = (Ok ∅, es).
Proof.
  intros Hget Hno. rewrite (get_genres_fetch _ _ _ _ Hget). f_equal.
  unfold genre_map_of. destruct Hno as [-> | Hno]; [done|].
  rewrite Hno. by destruct (truthy data).
Qed.

(** X2.  For a genre list whose entries all have a name and a hashable
    id, the map [get_genres] returns has no other keys than the listed
    ids, and gives each id the name of its last entry in the list. *)
Theorem get_genres_lookup s h entries gs pairs es :
  safe_get server s (lit (BASE_URL +:+ "/genre/movie/list")) None h
    = (Ok (PDict entries), es) →
  entry "genres" entries = Some (PList gs) →
  Forall2 (fun g p => genre_pair g = Ok p) gs pairs →
  ∃ genre_map,
    get_genres server s h = (Ok genre_map, es) ∧
    (∀ k, k ∉ pairs.*1 → genre_map !! k = None) ∧
    (∀ before k name after,
       pairs = before ++ (k, name) :: after → k ∉ after.*1 →
       genre_map !! k = Some name).
Proof.
  intros Hget Hgenres Hpairs.
  exists (foldl (fun m p => <[p.1 := p.2]> m) ∅ pairs). split; [|split].
  - rewrite (get_genres_fetch _ _ _ _ Hget). f_equal. unfold genre_map_of.
    destruct entries as [|kv entries]; [discriminate|].
    cbn [truthy py_contains py_getitem mbind result_bind]. rewrite Hgenres.
    rewrite bool_decide_eq_true_2 by done. cbn [py_iter mbind result_bind].
    by apply fill_genre_map_pairs.
  - intros k Hnot. by rewrite foldl_insert_other.
  - intros before k name after -> Hnot. by apply foldl_insert_last.
Qed.

Lemma fill_genre_map_raises pre pairs g post genre_map e :
  Forall2 (fun g p => genre_pair g = Ok p) pre pairs →
  genre_pair g = Raise e →
  fill_genre_map (pre ++ g :: post) genre_map = Raise e.
Proof.
  intros Hall Hg. revert genre_map.
  induction Hall as [|g' [k name] pre pairs Hg' _ IH]; intros genre_map.
  - cbn [app fill_genre_map]. unfold genre_pair in Hg.
    destruct (py_getitem g "name") as [name|]; cbn [mbind result_bind] in *;
      [|by injection Hg as ->].
    destruct (py_getitem g "id") as [gid|]; cbn [mbind result_bind] in *;
      [|by injection Hg as ->].
    destruct (key_of gid) as [k|]; cbn [mbind result_bind] in *;
      [discriminate | by injection Hg as ->].
  - cbn [app fill_genre_map]. unfold genre_pair in Hg'.
    destruct (py_getitem g' "name") as [name'|]; [|discriminate].
    cbn [mbind result_bind] in *.
    destruct (py_getitem g' "id") as [gid|]; [|discriminate].
    cbn [mbind result_bind] in *.
    destruct (key_of gid) as [k'|]; [|discriminate].
    cbn [mbind result_bind] in *. apply IH.
Qed.

(** X3.  A genre entry without "name" makes [get_genres] raise
    [KeyError] for "name", also when it has no "id" either (the
    right-hand side of the assignment is read first); an entry with a
    name and without "id" makes it raise [KeyError] for "id".  The
    entries before it are lost with the map. *)
Theorem get_genres_missing_key s h entries pre pairs g fields post es :
  safe_get server s (lit (BASE_URL +:+ "/genre/movie/list")) None h
    = (Ok (PDict entries), es) →
  entry "genres" entries = Some (PList (pre ++ g :: post)) →
  Forall2 (fun g p => genre_pair g = Ok p) pre pairs →
  g = PDict fields →
  (entry "name" fields = None →
     get_genres server s h = (Raise (KeyError "name"), es)) ∧
  (is_Some (entry "name" fields) → entry "id" fields = None →
     get_genres server s h = (Raise (KeyError "id"), es)).
Proof.
  intros Hget Hgenres Hpairs ->.
  assert (Hrun : ∀ e, genre_pair (PDict fields) = Raise e →
                 get_genres server s h = (Raise e, es)).
  { intros e He. rewrite (get_genres_fetch _ _ _ _ Hget). f_equal.
    unfold genre_map_of. destruct entries as [|kv entries]; [discriminate|].
    cbn [truthy py_contains py_getitem mbind result_bind]. rewrite Hgenres.
    rewrite bool_decide_eq_true_2 by done. cbn [py_iter mbind result_bind].
    by eapply fill_genre_map_raises. }
  split.
  - intros Hname. apply Hrun. unfold genre_pair. cbn [py_getitem]. by rewrite Hname.
  - intros [name Hname] Hid. apply Hrun. unfold genre_pair. cbn [py_getitem].
    rewrite Hname. cbn [mbind result_bind]. by rewrite Hid.
Qed.

End Genres.

Lemma get_genres_empty_witness :
  get_genres Scenario.dead Sample.sess []
    = (Ok ∅, snd (safe_get Scenario.dead Sample.sess
                    (lit (BASE_URL +:+ "/genre/movie/list")) None [])).
Proof.
  apply (get_genres_empty Scenario.dead Sample.sess [] PNone).
  - vm_compute. reflexivity.
  - left. reflexivity.
Defined.

Lemma get_genres_lookup_witness :
  ∃ genre_map,
    fst (get_genres Scenario.renaming_server Sample.sess []) = Ok genre_map ∧
    genre_map !! KInt 28 = Some (PStr "Thriller") ∧
    genre_map !! KInt 12 = Some (PStr "Adventure") ∧
    genre_map !! KInt 99 = None.
Proof.
  destruct (get_genres_lookup Scenario.renaming_server Sample.sess []
              [("genres", PList [PDict [("id", PInt 28); ("name", PStr "Action")];
                                 PDict [("id", PInt 12); ("name", PStr "Adventure")];
                                 PDict [("id", PInt 28); ("name", PStr "Thriller")]])]
              [PDict [("id", PInt 28); ("name", PStr "Action")];
               PDict [("id", PInt 12); ("name", PStr "Adventure")];
               PDict [("id", PInt 28); ("name", PStr "Thriller")]]
              [(KInt 28, PStr "Action"); (KInt 12, PStr "Adventure");
               (KInt 28, PStr "Thriller")]
              (snd (safe_get Scenario.renaming_server Sample.sess
                      (lit (BASE_URL +:+ "/genre/movie/list")) None [])))
    as (genre_map & Hrun & Hnone & Hsome).
  - vm_compute. reflexivity.
  - reflexivity.
  - repeat constructor.
  - exists genre_map. split; [by rewrite Hrun|]. split; [|split].
    + apply (Hsome [(KInt 28, PStr "Action"); (KInt 12, PStr "Adventure")] _ _ []);
        [reflexivity | apply not_elem_of_nil].
    + apply (Hsome [(KInt 28, PStr "Action")] _ _ [(KInt 28, PStr "Thriller")]);
        [reflexivity|]. by intros [=]%list_elem_of_singleton.
    + apply Hnone. apply (bool_decide_unpack _). vm_compute. exact I.
Defined.

Lemma get_genres_missing_key_witness :
  fst (get_genres Scenario.nameless_server Sample.sess []) = Raise (KeyError "name").
Proof.
  refine (f_equal fst (proj1 (get_genres_missing_key Scenario.nameless_server Sample.sess []
            [("genres", PList [PDict [("id", PInt 28); ("name", PStr "Action")];
                               PDict [("id", PInt 12)]])]
            [PDict [("id", PInt 28); ("name", PStr "Action")]]
            [(KInt 28, PStr "Action")]
            (PDict [("id", PInt 12)]) [("id", PInt 12)] []
            (snd (safe_get Scenario.nameless_server Sample.sess
                    (lit (BASE_URL +:+ "/genre/movie/list")) None []))
            _ _ _ _) _)).
  - vm_compute. reflexivity.
  - reflexivity.
  - repeat constructor.
  - reflexivity.
  - reflexivity.
Defined.

(** ** More on the paginator *)

Lemma requests_app es1 es2 : requests (es1 ++ es2) = requests es1 ++ requests es2.
Proof. apply omap_app. Qed.

Lemma requests_attempts rq rss : requests (attempts rq rss) = replicate (length rss) rq.
Proof.
  induction rss as [|rs rss IH]; [done|].
  unfold attempts in *. cbn [flat_map length replicate].
  rewrite requests_app, IH. by destruct (success rs).
Qed.

Section PaginatorBounds.

Variable server : list event → request → response.

Lemma get_movies_pages_requests s endpoint pages all_movies h :
  let es := snd (get_movies_pages server s endpoint pages all_movies h) in
  Forall (fun rq => ∃ page, page ∈ pages ∧ rq = listing_request s endpoint page)
    (requests es) ∧
  (length (requests es) ≤ 3 * length pages)%nat ∧
  csv_writes es = [].
Proof.
  revert all_movies h. induction pages as [|page pages IH]; intros all_movies h.
  - cbn. by split; [constructor|].
  - destruct (get_movies_pages_cons server s endpoint page pages all_movies h)
      as (rss & Hlen & Hstep).
    cbv zeta in *. rewrite Hstep. clear Hstep.
    assert (Hfetch :
      Forall (fun rq => ∃ page', page' ∈ page :: pages ∧
                rq = listing_request s endpoint page')
        (requests (attempts (listing_request s endpoint page) rss)) ∧
      (length (requests (attempts (listing_request s endpoint page) rss))
         ≤ 3 * length (page :: pages))%nat ∧
      csv_writes (attempts (listing_request s endpoint page) rss) = []).
    { rewrite requests_attempts, length_replicate, csv_writes_attempts.
      split; [|split; [cbn [length]; lia | done]].
      apply Forall_forall. intros rq ->%elem_of_replicate_inv.
      exists page. split; [left | done]. }
    destruct (page_outcome (fetched rss)) as [[[movies n]|]|e]; [|done..].
    specialize (IH (all_movies ++ movies)
      (h ++ attempts (listing_request s endpoint page) rss ++ page_done endpoint page n)).
    destruct (get_movies_pages server s endpoint pages _ _) as [r es2].
    cbn [snd] in *. destruct IH as (Hall & Hcount & Hcsv).
    destruct Hfetch as (Hall1 & Hcount1 & Hcsv1).
    rewrite !requests_app, !csv_writes_app, Hcsv, Hcsv1.
    split; [|split; [|done]].
    + apply Forall_app. split; [done|].
      cbn [page_done requests omap app]. eapply Forall_impl; [exact Hall|].
      intros rq (page' & Hin & ->). exists page'. split; [by right | done].
    + rewrite !length_app, requests_attempts, length_replicate.
      change (requests (page_done endpoint page n)) with (@nil request).
      cbn [length]. lia.
Qed.

(** X4.  The paginator only requests pages of its endpoint, numbered
    from 1 to the bound, with the 15 second timeout, at most three
    times the bound in all (none for a bound of zero or less), and
    writes no file. *)
Theorem get_movies_from_endpoint_requests s endpoint pages h :
  let es := snd (get_movies_from_endpoint server s endpoint pages h) in
  Forall (fun rq => ∃ page, 1 ≤ page ≤ pages ∧ rq = listing_request s endpoint page)
    (requests es) ∧
  (length (requests es) ≤ 3 * Z.to_nat pages)%nat ∧
  csv_writes es = [].
Proof.
  unfold get_movies_from_endpoint, py_range.
  destruct (get_movies_pages_requests s endpoint (seqZ 1 (pages + 1 - 1)) [] h)
    as (Hall & Hcount & Hcsv).
  cbv zeta. split; [|split; [|done]].
  - eapply Forall_impl; [exact Hall|].
    intros rq (page & Hin%elem_of_seqZ & ->). exists page. split; [lia | done].
  - rewrite length_seqZ in Hcount. lia.
Qed.

(** When the loop returns, it stopped at a requested page or went
    through all of them. *)
Lemma get_movies_pages_complete s endpoint len lo all_movies h movies es :
  get_movies_pages server s endpoint (seqZ lo (Z.of_nat len)) all_movies h
    = (Ok movies, es) →
  (∃ k, k ∈ pages_requested endpoint es ∧ no_results (page_payload endpoint k es)) ∨
  (∀ p, lo ≤ p < lo + Z.of_nat len → p ∈ pages_requested endpoint es).
Proof.
  revert lo all_movies h movies es.
  induction len as [|len IH]; intros lo all_movies h movies es Hrun.
  - right. intros p Hp. lia.
  - rewrite seqZ_succ_nat in Hrun.
    destruct (get_movies_pages_cons server s endpoint lo (seqZ (lo + 1) (Z.of_nat len))
                all_movies h) as (rss & Hlen & Hstep).
    cbv zeta in Hstep. rewrite Hstep in Hrun. clear Hstep.
    destruct (page_outcome (fetched rss)) as [[[ms n]|]|e] eqn:Hout.
    + destruct (get_movies_pages server s endpoint _ _ _) as [r es2] eqn:Htail.
      injection Hrun as -> <-.
      pose proof (get_movies_pages_tail _ _ _ _ _ _ _ _ _ Htail) as Hnot.
      rewrite !pages_requested_app, pages_requested_fetch.
      cbn [page_done pages_requested app].
      destruct (IH _ _ _ _ _ Htail) as [(k & Hk & Hstop) | Hall].
      * left. exists k. split; [apply elem_of_app; by right|].
        rewrite page_payload_continue by done.
        rewrite bool_decide_eq_false_2; [done|]. by intros ->.
      * right. intros p Hp. apply elem_of_app.
        destruct (decide (p = lo)) as [-> | Hne].
        -- left. apply elem_of_replicate. split; [done | lia].
        -- right. apply Hall. lia.
    + injection Hrun as <- <-. left. exists lo. split.
      * rewrite pages_requested_fetch. apply elem_of_replicate. split; [done | lia].
      * rewrite page_payload_fetch, bool_decide_eq_true_2 by done.
        by apply page_outcome_stop.
    + discriminate.
Qed.

(** X5.  What the paginator returns is the records of the pages 1 to
    the bound, in page order, a page that was not requested or that
    ended the pagination counting for none; and when it returns, either
    it stopped at a requested page that came back absent or without
    "results", or it requested every page up to the bound. *)
Theorem get_movies_from_endpoint_complete s endpoint pages h movies es :
  get_movies_from_endpoint server s endpoint pages h = (Ok movies, es) →
  movies = flat_map (fun p => page_records (page_payload endpoint p es))
             (py_range 1 (pages + 1)) ∧
  ((∃ k, k ∈ pages_requested endpoint es ∧ no_results (page_payload endpoint k es)) ∨
   (∀ p, 1 ≤ p ≤ pages → p ∈ pages_requested endpoint es)).
Proof.
  unfold get_movies_from_endpoint, py_range. rewrite seqZ_to_nat. intros Hrun. split.
  - by apply get_movies_pages_records in Hrun.
  - destruct (get_movies_pages_complete _ _ _ _ _ _ _ _ Hrun) as [Hstop | Hall];
      [by left|].
    right. intros p Hp. apply Hall. lia.
Qed.

(** A page on which the body of the loop raises ends the pagination
    with that exception. *)
Lemma get_movies_pages_raise s endpoint len lo all_movies h res es k e :
  get_movies_pages server s endpoint (seqZ lo (Z.of_nat len)) all_movies h = (res, es) →
  k ∈ pages_requested endpoint es →
  page_outcome (page_payload endpoint k es) = Raise e →
  res = Raise e ∧ ∀ q, q ∈ pages_requested endpoint es → q ≤ k.
Proof.
  revert lo all_movies h res es.
  induction len as [|len IH]; intros lo all_movies h res es Hrun Hk Hraise.
  - injection Hrun as <- <-. by apply elem_of_nil in Hk.
  - rewrite seqZ_succ_nat in Hrun.
    destruct (get_movies_pages_cons server s endpoint lo (seqZ (lo + 1) (Z.of_nat len))
                all_movies h) as (rss & Hlen & Hstep).
    cbv zeta in Hstep. rewrite Hstep in Hrun. clear Hstep.
    assert (Hlast : ∀ es', es' = attempts (listing_request s endpoint lo) rss →
      k ∈ pages_requested endpoint es' →
      page_outcome (page_payload endpoint k es') = page_outcome (fetched rss) ∧
      ∀ q, q ∈ pages_requested endpoint es' → q ≤ k).
    { intros es' -> Hk'. rewrite pages_requested_fetch in Hk' |- *.
      apply elem_of_replicate_inv in Hk' as ->.
      rewrite page_payload_fetch, bool_decide_eq_true_2 by done.
      split; [done|]. by intros q ->%elem_of_replicate_inv. }
    destruct (page_outcome (fetched rss)) as [[[ms n]|]|e'] eqn:Hout.
    + destruct (get_movies_pages server s endpoint _ _ _) as [r es2] eqn:Htail.
      injection Hrun as <- <-.
      pose proof (get_movies_pages_tail _ _ _ _ _ _ _ _ _ Htail) as Hnot.
      pose proof (get_movies_pages_requested _ _ _ _ _ _ _ _ _ Htail)
        as (n2 & _ & _ & _ & Hmem).
      rewrite page_payload_continue in Hraise by done.
      rewrite !pages_requested_app, pages_requested_fetch in Hk |- *.
      cbn [page_done pages_requested app] in Hk |- *.
      apply elem_of_app in Hk as [->%elem_of_replicate_inv | Hk].
      { rewrite bool_decide_eq_true_2 in Hraise by done. congruence. }
      assert (k ≠ lo) as Hne by (intros ->; done).
      rewrite bool_decide_eq_false_2 in Hraise by done.
      destruct (IH _ _ _ _ _ Htail Hk Hraise) as [-> Hmax]. split; [done|].
      intros q [->%elem_of_replicate_inv | Hq]%elem_of_app; [|by apply Hmax].
      apply Hmem in Hk. lia.
    + injection Hrun as <- <-. destruct (Hlast _ eq_refl Hk) as [Heq _]. congruence.
    + injection Hrun as <- <-. destruct (Hlast _ eq_refl Hk) as [Heq Hmax].
      split; [congruence | done].
Qed.

(** X6.  A requested page whose payload makes the loop body raise (a
    truthy payload that is no container, or "results" holding [null] or
    a number) ends the pagination with that exception: no later page is
    requested, and the records of the earlier pages are not returned. *)
Theorem get_movies_from_endpoint_raises s endpoint pages h res es k e :
  get_movies_from_endpoint server s endpoint pages h = (res, es) →
  k ∈ pages_requested endpoint es →
  page_outcome (page_payload endpoint k es) = Raise e →
  res = Raise e ∧ ∀ q, q ∈ pages_requested endpoint es → q ≤ k.
Proof.
  unfold get_movies_from_endpoint, py_range. rewrite seqZ_to_nat.
  apply get_movies_pages_raise.
Qed.

End PaginatorBounds.

Lemma get_movies_from_endpoint_complete_witness :
  let run := get_movies_from_endpoint Scenario.full_server Sample.sess
               "/movie/popular" 3 [] in
  fst run = Ok [Sample.alpha; Sample.alpha; Sample.alpha] ∧
  ∀ p, 1 ≤ p ≤ 3 → p ∈ pages_requested "/movie/popular" (snd run).
Proof.
  intros run.
  destruct (get_movies_from_endpoint_complete Scenario.full_server Sample.sess
              "/movie/popular" 3 []
              [Sample.alpha; Sample.alpha; Sample.alpha] (snd run))
    as [_ [(k & Hk & Hstop) | Hall]].
  - vm_compute. reflexivity.
  - exfalso. revert Hk Hstop. vm_compute.
    intros Hk%list_elem_of_In [Hstop | Hstop]; simpl in Hk;
      destruct Hk as [<- | [<- | [<- | []]]]; discriminate.
  - split; [vm_compute; reflexivity | exact Hall].
Defined.

Lemma get_movies_from_endpoint_raises_witness :
  let run := get_movies_from_endpoint Scenario.null_page_server Sample.sess
               "/movie/popular" 30 [] in
  fst run = Raise TypeError ∧
  ∀ q, q ∈ pages_requested "/movie/popular" (snd run) → q ≤ 2.
Proof.
  intros run.
  apply (get_movies_from_endpoint_raises Scenario.null_page_server Sample.sess
           "/movie/popular" 30 [] (fst run) (snd run) 2 TypeError).
  - apply surjective_pairing.
  - apply (bool_decide_unpack _). vm_compute. exact I.
  - vm_compute. reflexivity.
Defined.

(** ** More on deduplication *)

Lemma first_seen_sublist earlier movies : first_seen earlier movies `sublist_of` movies.
Proof.
  revert earlier. induction movies as [|m movies IH]; intros earlier; [done|].
  cbn [first_seen]. case_bool_decide.
  - by apply sublist_cons.
  - by apply sublist_skip.
Qed.

Lemma first_seen_fresh earlier movies :
  NoDup (movie_key <$> movies) →
  (∀ m, m ∈ movies → movie_key m ∉ movie_key <$> earlier) →
  first_seen earlier movies = movies.
Proof.
  revert earlier. induction movies as [|m movies IH]; intros earlier Hnd Hnew; [done|].
  rewrite fmap_cons in Hnd. apply NoDup_cons in Hnd as [Hm Hnd].
  cbn [first_seen]. rewrite bool_decide_eq_false_2 by (apply Hnew; left).
  f_equal. apply IH; [done|]. intros m' Hin.
  rewrite fmap_app, elem_of_app. intros [Hearlier | Heq%list_elem_of_singleton].
  - by apply (Hnew m'); [right|].
  - apply Hm. rewrite <- Heq. by apply list_elem_of_fmap_2.
Qed.

Lemma dedup_keyed movies all_movies seen :
  Forall keyed movies →
  ∃ all_movies' seen', dedup movies all_movies seen = Ok (all_movies', seen').
Proof.
  intros Hall. revert all_movies seen.
  induction Hall as [|m movies [k Hk] _ IH]; intros all_movies seen.
  - cbn. eauto.
  - cbn [dedup]. unfold movie_key in Hk.
    destruct (py_getitem m "id") as [v|]; [|discriminate].
    cbn [mbind result_bind] in *. rewrite Hk. cbn [mbind result_bind].
    case_bool_decide; apply IH.
Qed.

(** X7.  Going through two batches of records one after the other,
    with the list and the set the first left behind, is going through
    the two batches put together: the per-endpoint loops of [main]
    amount to one pass over all the listings. *)
Theorem dedup_app movies1 movies2 all_movies seen :
  dedup (movies1 ++ movies2) all_movies seen
    = st ← dedup movies1 all_movies seen; dedup movies2 st.1 st.2.
Proof.
  revert all_movies seen. induction movies1 as [|m movies1 IH]; intros all_movies seen.
  - done.
  - cbn [app dedup].
    destruct (py_getitem m "id") as [v|]; [|done]. cbn [mbind result_bind].
    destruct (key_of v) as [k|]; [|done]. cbn [mbind result_bind].
    case_bool_decide; apply IH.
Qed.

(** X8.  When the deduplication loop returns, the records it added to
    the list are some of the batch in their original order, none of
    them with an identifier that was in the set, all with different
    identifiers; and the set has grown by exactly the identifiers of
    the batch. *)
Theorem dedup_keeps_order movies all_movies seen all_movies' seen' :
  dedup movies all_movies seen = Ok (all_movies', seen') →
  ∃ kept,
    all_movies' = all_movies ++ kept ∧
    kept `sublist_of` movies ∧
    NoDup (movie_key <$> kept) ∧
    (∀ m k, m ∈ kept → movie_key m = Ok k → k ∉ seen) ∧
    (∀ k, k ∈ seen' ↔ k ∈ seen ∨ Ok k ∈ movie_key <$> movies).
Proof.
  intros Hd.
  set (earlier := (fun k => PDict [("id", match k with
                                          | KNone => PNone
                                          | KInt n => PInt n
                                          | KStr s => PStr s
                                          end)]) <$> elements seen).
  assert (Hkeys : ∀ k, Ok k ∈ movie_key <$> earlier ↔ k ∈ seen).
  { intros k. unfold earlier. rewrite <- list_fmap_compose, list_elem_of_fmap. split.
    - intros (k' & Heq & Hin%elem_of_elements). destruct k'; by injection Heq as ->.
    - intros Hin. exists k. split; [by destruct k | by apply elem_of_elements]. }
  destruct (dedup_first_seen _ _ _ earlier _ _ Hd) as (-> & Hseen & _).
  { intros k. by rewrite Hkeys. }
  exists (first_seen earlier movies). split; [done|].
  split; [apply first_seen_sublist|]. split; [apply first_seen_NoDup|]. split.
  - intros m k [_ Hnew]%first_seen_elem Hk Hin. apply Hnew.
    rewrite Hk. by apply Hkeys.
  - intros k. rewrite (Hseen k), fmap_app, elem_of_app, Hkeys. done.
Qed.

(** X9.  Deduplicating the outcome of a deduplication changes
    nothing: the same records in the same order, and the same set. *)
Theorem dedup_idempotent movies kept seen :
  dedup movies [] ∅ = Ok (kept, seen) →
  dedup kept [] ∅ = Ok (kept, seen).
Proof.
  intros Hd.
  assert (Hempty : seen_of ∅ []).
  { intros k. split; [by intros ?%elem_of_empty | by intros ?%elem_of_nil]. }
  destruct (dedup_first_seen _ _ _ [] _ _ Hd Hempty) as (-> & Hseen & Hkeyed).
  cbn [app] in *.
  destruct (dedup_keyed (first_seen [] movies) [] ∅) as (kept' & seen' & Hd').
  { by apply first_seen_keyed. }
  destruct (dedup_first_seen _ _ _ [] _ _ Hd' Hempty) as (-> & Hseen' & _).
  cbn [app] in *. rewrite Hd'. f_equal. f_equal.
  - apply first_seen_fresh; [apply first_seen_NoDup|].
    intros m _. apply not_elem_of_nil.
  - apply set_eq. intros k. rewrite (Hseen k), (Hseen' k). split.
    + intros (m & Heq & [Hin _]%first_seen_elem)%list_elem_of_fmap.
      rewrite Heq. by apply list_elem_of_fmap_2.
    + intros (m & Heq & Hin)%list_elem_of_fmap.
      destruct (first_seen_covers [] _ _ Hin) as [?%elem_of_nil | Hkept]; [done|].
      by rewrite Heq.
Qed.

Lemma dedup_keeps_order_witness :
  ∃ kept,
    [Sample.gamma; Sample.alpha; Sample.delta] = [Sample.gamma] ++ kept ∧
    kept `sublist_of` [Sample.alpha; Sample.gamma; Sample.alpha; Sample.delta] ∧
    NoDup (movie_key <$> kept) ∧
    (∀ m k, m ∈ kept → movie_key m = Ok k → k ∉ ({[KInt 3]} : gset key)) ∧
    (∀ k, k ∈ ({[KInt 3; KInt 1; KInt 4]} : gset key) ↔
          k ∈ ({[KInt 3]} : gset key) ∨
          Ok k ∈ movie_key <$> [Sample.alpha; Sample.gamma; Sample.alpha; Sample.delta]).
Proof.
  apply (dedup_keeps_order [Sample.alpha; Sample.gamma; Sample.alpha; Sample.delta]
           [Sample.gamma] {[KInt 3]}).
  vm_compute. reflexivity.
Defined.

Lemma dedup_idempotent_witness :
  dedup [Sample.alpha; Sample.beta] [] ∅
    = Ok ([Sample.alpha; Sample.beta], {[KInt 1; KInt 2]}).
Proof.
  apply (dedup_idempotent [Sample.alpha; Sample.beta; Sample.alpha]).
  vm_compute. reflexivity.
Defined.

(** ** More on credits and rows *)

Lemma py_get_dict entries k default_value :
  py_get (PDict entries) k default_value = Ok (default default_value (entry k entries)).
Proof. cbn [py_get]. by destruct (entry k entries). Qed.

Lemma director_names_nameless pre c fields post :
  Forall crew_entry pre →
  c = PDict fields →
  entry "job" fields = Some (PStr "Director") →
  entry "name" fields = None →
  director_names (pre ++ c :: post) = Raise (KeyError "name").
Proof.
  intros Hpre -> Hjob Hname.
  induction Hpre as [|c' pre (fields' & -> & Hnamed) _ IH].
  - cbn [app director_names py_get]. rewrite Hjob. cbn [mbind result_bind py_eq_str].
    rewrite bool_decide_eq_true_2 by done. cbn [py_getitem]. by rewrite Hname.
  - cbn [app director_names]. unfold is_director in Hnamed.
    rewrite py_get_dict in Hnamed |- *.
    cbn [mbind result_bind]. destruct (py_eq_str _ "Director").
    + destruct Hnamed as [name Hname']; [done|]. cbn [py_getitem]. rewrite Hname'.
      cbn [mbind result_bind]. by rewrite IH.
    + exact IH.
Qed.


Section MoreRows.

Variable server : list event → request → response.

(** X10.  A credits payload that is truthy but not an object (a list,
    a string, a number, [true]) makes [get_movie_credits] raise
    [AttributeError]: only a falsy payload is taken as missing. *)
Theorem get_movie_credits_not_object s movie_id h data es :
  safe_get server s [PStr (BASE_URL +:+ "/movie/"); movie_id; PStr "/credits"] None h
    = (Ok data, es) →
  truthy data = true →
  (∀ entries, data ≠ PDict entries) →
  get_movie_credits server s movie_id h = (Raise AttributeError, es).
Proof.
  intros Hget Htrue Hnot. unfold get_movie_credits.
  rewrite (bind_ok _ _ _ _ _ (Raise AttributeError) [] Hget).
  - by rewrite app_nil_r.
  - rewrite Htrue. unfold lift, extract_credits.
    destruct data as [| | | | |entries]; try done. by destruct (Hnot entries).
Qed.

(** X11.  A crew entry whose job is "Director" and that has no "name"
    makes [get_movie_credits] raise [KeyError], wherever it stands in
    the crew array: also after a director that has a name, although
    only the first director's name is returned. *)
Theorem get_movie_credits_nameless_director s movie_id h data es
    cast names pre c fields post :
  safe_get server s [PStr (BASE_URL +:+ "/movie/"); movie_id; PStr "/credits"] None h
    = (Ok data, es) →
  truthy data = true →
  py_get data "cast" (PList []) = Ok (PList cast) →
  Forall2 (fun c name => py_getitem c "name" = Ok (PStr name)) (take 5 cast) names →
  py_get data "crew" (PList []) = Ok (PList (pre ++ c :: post)) →
  Forall crew_entry pre →
  c = PDict fields →
  entry "job" fields = Some (PStr "Director") →
  entry "name" fields = None →
  get_movie_credits server s movie_id h = (Raise (KeyError "name"), es).
Proof.
  intros Hget Htrue Hcast Hnames Hcrew Hpre Hc Hjob Hname. unfold get_movie_credits.
  rewrite (bind_ok _ _ _ _ _ (Raise (KeyError "name")) [] Hget).
  - by rewrite app_nil_r.
  - rewrite Htrue. unfold lift, extract_credits. rewrite Hcast.
    cbn [mbind result_bind py_prefix py_iter].
    rewrite (names_of_strings _ _ Hnames). cbn [mbind result_bind].
    rewrite Hcrew. cbn [mbind result_bind py_iter].
    by rewrite (director_names_nameless _ _ _ _ Hpre Hc Hjob Hname).
Qed.

(** X12.  A record without "genre_ids" and without "poster_path"
    still makes a row once its credits are fetched: every copied field
    the record lacks is [None], the genres and the poster URL are
    empty strings. *)
Theorem build_row_defaults s genre_map entries h credits es :
  entry "genre_ids" entries = None →
  entry "poster_path" entries = None →
  get_movie_credits server s (default PNone (entry "id" entries)) h = (Ok credits, es) →
  build_row server s genre_map (PDict entries) h
    = (Ok {| row_id := default PNone (entry "id" entries);
             row_title := default PNone (entry "title" entries);
             row_overview := default PNone (entry "overview" entries);
             row_release_date := default PNone (entry "release_date" entries);
             row_vote_average := default PNone (entry "vote_average" entries);
             row_genres := "";
             row_top_cast := credits.1;
             row_director := credits.2;
             row_poster_url := "" |}, es).
Proof.
  intros Hgenres Hposter Hcredits. unfold build_row.
  do 5 (erewrite bind_lift_ok; [|apply py_get_dict]).
  erewrite bind_lift_ok; [|by rewrite py_get_dict, Hgenres].
  erewrite bind_lift_ok; [|by unfold poster_of; rewrite py_get_dict, Hposter].
  erewrite bind_ok; [|exact Hcredits|].
  - by rewrite app_nil_r.
  - erewrite bind_lift_ok; [|reflexivity]. reflexivity.
Qed.

(** X13.  The default of [m.get("genre_ids", [])] is for an absent key
    only: a record that has the key with [null], or with another value
    that cannot be iterated, makes row assembly raise before any
    credits request. *)
Theorem build_row_genre_ids_not_iterable s genre_map entries h v e :
  entry "genre_ids" entries = Some v →
  py_iter v = Raise e →
  build_row server s genre_map (PDict entries) h = (Raise e, []).
Proof.
  intros Hgenres Hiter. unfold build_row.
  do 5 (erewrite bind_lift_ok; [|apply py_get_dict]).
  apply bind_lift_raise. by rewrite py_get_dict, Hgenres; cbn; rewrite Hiter.
Qed.


End MoreRows.

Lemma get_movie_credits_not_object_witness :
  fst (get_movie_credits Scenario.list_credits_server Sample.sess (PInt 1) [])
    = Raise AttributeError.
Proof.
  refine (f_equal fst (get_movie_credits_not_object Scenario.list_credits_server
            Sample.sess (PInt 1) [] (PList [PInt 1])
            (snd (safe_get Scenario.list_credits_server Sample.sess
                    [PStr (BASE_URL +:+ "/movie/"); PInt 1; PStr "/credits"] None []))
            _ _ _)).
  - vm_compute. reflexivity.
  - reflexivity.
  - discriminate.
Defined.

Lemma get_movie_credits_nameless_director_witness :
  fst (get_movie_credits Scenario.nameless_director_server Sample.sess (PInt 1) [])
    = Raise (KeyError "name").
Proof.
  refine (f_equal fst (get_movie_credits_nameless_director
            Scenario.nameless_director_server Sample.sess (PInt 1) []
            (PDict [("cast", PList [Sample.person "A1"]);
                    ("crew", PList [Sample.crew_member "Director" "D1";
                                    PDict [("job", PStr "Director")]])])
            (snd (safe_get Scenario.nameless_director_server Sample.sess
                    [PStr (BASE_URL +:+ "/movie/"); PInt 1; PStr "/credits"] None []))
            [Sample.person "A1"] ["A1"] [Sample.crew_member "Director" "D1"]
            (PDict [("job", PStr "Director")]) [("job", PStr "Director")] []
            _ _ _ _ _ _ _ _ _)).
  - vm_compute. reflexivity.
  - reflexivity.
  - reflexivity.
  - repeat constructor.
  - reflexivity.
  - repeat constructor. eexists. split; [reflexivity|]. intros _. vm_compute. eauto.
  - reflexivity.
  - reflexivity.
  - reflexivity.
Defined.

Lemma build_row_defaults_witness :
  fst (build_row Scenario.dead Sample.sess Sample.genre_map Scenario.bare [])
    = Ok {| row_id := PInt 7; row_title := PNone; row_overview := PNone;
            row_release_date := PNone; row_vote_average := PNone;
            row_genres := ""; row_top_cast := ""; row_director := PStr "";
            row_poster_url := "" |}.
Proof.
  refine (f_equal fst (build_row_defaults Scenario.dead Sample.sess Sample.genre_map
            [("id", PInt 7)] [] ("", PStr "")
            (snd (get_movie_credits Scenario.dead Sample.sess (PInt 7) []))
            _ _ _)).
  - reflexivity.
  - reflexivity.
  - vm_compute. reflexivity.
Defined.

Lemma build_row_genre_ids_not_iterable_witness :
  build_row Scenario.dead Sample.sess Sample.genre_map Scenario.null_genres []
    = (Raise TypeError, []).
Proof.
  apply (build_row_genre_ids_not_iterable Scenario.dead Sample.sess Sample.genre_map
           [("id", PInt 8); ("genre_ids", PNone)] [] PNone TypeError).
  - reflexivity.
  - reflexivity.
Defined.


(** ** More on whole runs *)

Lemma credits_requested_app es1 es2 :
  credits_requested (es1 ++ es2) = credits_requested es1 ++ credits_requested es2.
Proof.
  induction es1 as [|[rq rs| | |] es1 IH]; cbn [app credits_requested]; try done.
  destruct (credits_id rq); by rewrite IH.
Qed.

Lemma credits_id_credits_request s movie_id :
  credits_id (credits_request s movie_id) = Some movie_id.
Proof.
  unfold credits_id, credits_request. cbn [req_url req_params].
  by rewrite bool_decide_eq_true_2.
Qed.

Lemma credits_requested_attempts s movie_id rss :
  credits_requested (attempts (credits_request s movie_id) rss)
    = replicate (length rss) movie_id.
Proof.
  induction rss as [|rs rss IH]; [done|].
  unfold attempts in *. cbn [flat_map length replicate].
  rewrite credits_requested_app, IH. cbn [credits_requested].
  rewrite credits_id_credits_request. by destruct (success rs).
Qed.

Lemma only_credits_requested P es :
  (∀ rq, P rq → credits_id rq = None) → only P es → credits_requested es = [].
Proof.
  intros HP. induction 1 as [|[rq rs| | |] es Hev _ IH]; try done.
  cbn [credits_requested]. by rewrite (HP _ Hev).
Qed.

Lemma only_requests P es : only P es → Forall P (requests es).
Proof.
  induction 1 as [|[rq rs| | |] es Hev _ IH]; try done. by constructor.
Qed.

Lemma requests_closed (P : request → Prop) : closed (fun es => Forall P (requests es)).
Proof.
  split; [constructor|]. intros es1 es2 H1 H2. rewrite requests_app. by apply Forall_app.
Qed.

Lemma fetches_app n1 n2 es1 es2 :
  fetches n1 es1 → fetches n2 es2 → fetches (n1 + n2) (es1 ++ es2).
Proof.
  intros [Hcsv1 Hn1] [Hcsv2 Hn2]. unfold fetches.
  rewrite csv_writes_app, requests_app, length_app, Hcsv1, Hcsv2. split; [done | lia].
Qed.

Section MoreRuns.

Variable server : list event → request → response.

Lemma get_genres_emits (P : request → Prop) s :
  P (genres_request s) → emits (only P) (get_genres server s).
Proof.
  intros HP. pose proof (only_closed P) as Hc.
  unfold get_genres. apply emits_bind; [done | by apply safe_get_only |].
  intros data. destruct (truthy data); [|by apply emits_ret].
  apply emits_bind; [done | by apply emits_lift |].
  intros []; [by apply emits_lift | by apply emits_ret].
Qed.

Lemma get_movie_credits_emits (P : request → Prop) s movie_id :
  P (credits_request s movie_id) → emits (only P) (get_movie_credits server s movie_id).
Proof.
  intros HP. pose proof (only_closed P) as Hc.
  unfold get_movie_credits. apply emits_bind; [done | by apply safe_get_only |].
  intros data. destruct (truthy data); [by apply emits_lift | by apply emits_ret].
Qed.

Lemma build_rows_emits (P : request → Prop) s genre_map total i movies rows :
  (∀ movie_id, P (credits_request s movie_id)) →
  emits (only P) (build_rows server s genre_map total i movies rows).
Proof.
  intros HP. pose proof (only_closed P) as Hc.
  revert i rows. induction movies as [|m movies IH]; intros i rows.
  - by apply emits_ret.
  - cbn [build_rows].
    apply emits_bind; [done | | intros r].
    { unfold build_row.
      repeat (apply emits_bind; [done | by apply emits_lift | intros ?]).
      apply emits_bind; [done | by apply get_movie_credits_emits | intros ?].
      apply emits_bind; [done | by apply emits_lift | intros ?].
      by apply emits_ret. }
    apply emits_bind; [done | apply emits_print | intros _].
    apply emits_bind; [done | apply emits_sleep | intros _].
    apply IH.
Qed.

Lemma collect_emits (P : request → Prop) s endpoints all_movies seen :
  (∀ endpoint page, P (listing_request s endpoint page)) →
  emits (only P) (collect server s endpoints all_movies seen).
Proof.
  intros HP. eapply emits_only_weaken; [|apply collect_only].
  intros rq (endpoint & page & _ & ->). apply HP.
Qed.

(** Every request of a run satisfies whatever the three kinds of
    request the script makes satisfy. *)
Lemma main_emits (P : request → Prop) API_KEY :
  let s := create_session API_KEY in
  P (genres_request s) →
  (∀ endpoint page, P (listing_request s endpoint page)) →
  (∀ movie_id, P (credits_request s movie_id)) →
  emits (fun es => Forall P (requests es)) (main API_KEY server).
Proof.
  intros s Hgenres Hlisting Hcredits.
  pose proof (requests_closed P) as Hc.
  assert (Hsub : ∀ A (m : M A), emits (only P) m →
                 emits (fun es => Forall P (requests es)) m).
  { intros A m Hm. eapply spec_weaken; [exact Hm | |]; cbv beta.
    - intros _ es. apply only_requests.
    - intros es. apply only_requests. }
  assert (Hquiet : ∀ ev, requests [ev] = [] →
                   emits (fun es => Forall P (requests es)) (emit ev)).
  { intros ev Hev. apply spec_emit. rewrite Hev. constructor. }
  unfold main.
  destruct (match API_KEY with
            | Some k => bool_decide (k = "") || bool_decide (k = "YOUR_API_KEY_HERE")
            | None => true
            end); [by apply Hquiet|].
  cbv zeta. fold s.
  apply emits_bind; [done | by apply Hquiet | intros _].
  apply emits_bind; [done | by apply Hsub, get_genres_emits | intros genre_map].
  apply emits_bind; [done | by apply Hquiet | intros _].
  apply emits_bind; [done | by apply Hsub, collect_emits | intros st].
  apply emits_bind; [done | by apply Hquiet | intros _].
  apply emits_bind; [done | by apply Hsub, build_rows_emits | intros rows].
  apply emits_bind; [done | by apply Hquiet | intros _].
  by apply Hquiet.
Qed.

(** X15.  Every request of a run, whether it ends normally or raises,
    is made through the session built from the credential: it carries
    the header "Authorization: Bearer <key>" with "accept:
    application/json", the default parameter "language=en", and the 15
    second timeout. *)
Theorem main_requests_carry_credential k h :
  Forall (fun rq =>
            headers (req_session rq)
              = [("accept", "application/json"); ("Authorization", "Bearer " +:+ k)] ∧
            params (req_session rq) = [("language", "en")] ∧
            req_timeout rq = 15)
    (requests (snd (main (Some k) server h))).
Proof.
  pose proof (main_emits
    (fun rq =>
       headers (req_session rq)
         = [("accept", "application/json"); ("Authorization", "Bearer " +:+ k)] ∧
       params (req_session rq) = [("language", "en")] ∧
       req_timeout rq = 15) (Some k)) as Hmain.
  cbv zeta in Hmain. specialize (Hmain ltac:(done) ltac:(done) ltac:(done) h).
  by destruct (main (Some k) server h) as [[[]|e] es].
Qed.

End MoreRuns.


Section RunPhases.

Variable server : list event → request → response.

Lemma get_movie_credits_events s movie_id h res es :
  get_movie_credits server s movie_id h = (res, es) →
  ∃ rss, (1 ≤ length rss ≤ 3)%nat ∧ es = attempts (credits_request s movie_id) rss.
Proof.
  unfold get_movie_credits, bind.
  destruct (safe_get_run server s
              [PStr (BASE_URL +:+ "/movie/"); movie_id; PStr "/credits"] None h)
    as (rss & Hlen & ->).
  intros Hrun. exists rss. split; [done|].
  destruct (truthy (fetched rss)); unfold lift, ret in Hrun;
    injection Hrun as _ <-; by rewrite app_nil_r.
Qed.

(** The credits requests of the row loop: one to three for each row,
    in row order, with the row's identifier. *)
Lemma build_rows_credits s genre_map total movies i rows h rows' es :
  build_rows server s genre_map total i movies rows h = (Ok rows', es) →
  ∃ new counts,
    rows' = rows ++ new ∧
    length counts = length new ∧
    Forall (fun c => 1 ≤ c ≤ 3)%nat counts ∧
    credits_requested es = concat (zip_with replicate counts (row_id <$> new)).
Proof.
  revert i rows h es. induction movies as [|m movies IH]; intros i rows h es Hrun.
  - injection Hrun as <- <-. exists [], []. by rewrite app_nil_r.
  - cbn [build_rows] in Hrun.
    apply bind_ok_inv in Hrun as (r & es1 & es2 & Hrow & Hrun & ->).
    apply bind_ok_inv in Hrun as ([] & es3 & es4 & Hprint & Hrun & ->).
    apply bind_ok_inv in Hrun as ([] & es5 & es6 & Hsleep & Hrun & ->).
    injection Hprint as <-. injection Hsleep as <-.
    apply IH in Hrun as (new & counts & -> & Hlen & Hcounts & Hcredits).
    apply build_row_ok in Hrow
      as (_ & _ & _ & credits & _ & _ & _ & _ & _ & _ & _ & _ & _ & Hrow & _).
    apply get_movie_credits_events in Hrow as (rss & Hrss & ->).
    exists (r :: new), (length rss :: counts).
    split; [by rewrite <- app_assoc|]. split; [cbn; lia|]. split; [by constructor|].
    rewrite !credits_requested_app, credits_requested_attempts, Hcredits. done.
Qed.

(** A run that ends normally either stopped at the credential check or
    went through its three phases and wrote the file. *)
Lemma main_ok_inv API_KEY h es :
  main API_KEY server h = (Ok (), es) →
  let s := create_session API_KEY in
  (¬ valid_key API_KEY ∧
   es = [EvPrint (lit "❌ Please set API_KEY or edit directly in code.")]) ∨
  (valid_key API_KEY ∧
   ∃ text0 h1 genre_map es1 text2 h3 st es3 text4 h5 rows es5 text6,
     get_genres server s h1 = (Ok genre_map, es1) ∧
     collect server s ENDPOINTS [] ∅ h3 = (Ok st, es3) ∧
     build_rows server s genre_map (Z.of_nat (length st.1)) 1 st.1 [] h5
       = (Ok rows, es5) ∧
     es = [EvPrint text0] ++ es1 ++ [EvPrint text2] ++ es3 ++ [EvPrint text4] ++ es5 ++
          [EvToCsv SAVE_FILE rows] ++ [EvPrint text6]).
Proof.
  unfold main. cbv zeta.
  destruct API_KEY as [k|].
  2:{ intros [= <-]. left. split; [|done]. by intros (k & [=] & _). }
  destruct (bool_decide (k = "") || bool_decide (k = "YOUR_API_KEY_HERE")) eqn:Hk.
  { intros [= <-]. left. split; [|done]. intros (k' & [= <-] & Hempty & Hplace).
    apply orb_true_iff in Hk as [Hk%bool_decide_eq_true | Hk%bool_decide_eq_true]; done. }
  intros Hrun. right. split.
  { apply orb_false_iff in Hk as [Hempty%bool_decide_eq_false Hplace%bool_decide_eq_false].
    by exists k. }
  apply bind_ok_inv in Hrun as ([] & es0 & t0 & Hp0 & Hrun & ->). injection Hp0 as <-.
  apply bind_ok_inv in Hrun as (genre_map & es1 & t1 & Hgenres & Hrun & ->).
  apply bind_ok_inv in Hrun as ([] & es2 & t2 & Hp2 & Hrun & ->). injection Hp2 as <-.
  apply bind_ok_inv in Hrun as (st & es3 & t3 & Hcollect & Hrun & ->).
  apply bind_ok_inv in Hrun as ([] & es4 & t4 & Hp4 & Hrun & ->). injection Hp4 as <-.
  apply bind_ok_inv in Hrun as (rows & es5 & t5 & Hrows & Hrun & ->).
  apply bind_ok_inv in Hrun as ([] & es6 & t6 & Hcsv & Hrun & ->). injection Hcsv as <-.
  injection Hrun as <-.
  eexists _, _, genre_map, es1, _, _, st, es3, _, _, rows, es5, _.
  split; [exact Hgenres|]. split; [exact Hcollect|]. split; [exact Hrows|]. done.
Qed.

(** X17.  In a run that writes the file, credits are requested for the
    rows and for nothing else: for each row in order, one to three
    requests with that row's identifier.  No credits are fetched for a
    record dropped as a duplicate, and none twice for a row. *)
Theorem credits_requested_per_row API_KEY h path rows :
  (path, rows) ∈ csv_writes (snd (main API_KEY server h)) →
  ∃ counts,
    length counts = length rows ∧
    Forall (fun c => 1 ≤ c ≤ 3)%nat counts ∧
    credits_requested (snd (main API_KEY server h))
      = concat (zip_with replicate counts (row_id <$> rows)).
Proof.
  pose proof (main_run API_KEY server h) as Hspec.
  destruct (main API_KEY server h) as [[[]|e] es] eqn:Hrun; cbn [snd].
  2:{ rewrite Hspec. by intros ?%elem_of_nil. }
  clear Hspec. apply main_ok_inv in Hrun. cbv zeta in Hrun.
  destruct Hrun as [[_ ->] | (_ & text0 & h1 & genre_map & es1 & text2 & h3 & st & es3
                              & text4 & h5 & rows' & es5 & text6
                              & Hgenres & Hcollect & Hrows & ->)].
  { by intros ?%elem_of_nil. }
  pose proof (spec_run _ _ _ _ _ _
    (get_genres_emits server (fun rq => rq = genres_request (create_session API_KEY))
       _ eq_refl) Hgenres) as Hes1.
  pose proof (spec_run _ _ _ _ _ _ (collect_only server _ _ _ _) Hcollect) as Hes3.
  pose proof (spec_run _ _ _ _ _ _
    (build_rows_only server _ _ _ _ _ _) Hrows) as Hes5.
  cbv beta iota in Hes1, Hes3, Hes5.
  rewrite !csv_writes_app, (only_csv _ _ Hes1), (only_csv _ _ Hes3), (only_csv _ _ Hes5).
  intros [= -> ->]%list_elem_of_singleton.
  apply build_rows_credits in Hrows as (new & counts & -> & Hlen & Hcounts & Hcredits).
  exists counts. split; [done|]. split; [done|].
  assert (H1 : credits_requested es1 = []).
  { eapply only_credits_requested; [|exact Hes1]. by intros rq ->. }
  assert (H3 : credits_requested es3 = []).
  { eapply only_credits_requested; [|exact Hes3].
    by intros rq (endpoint & page & _ & ->). }
  rewrite !credits_requested_app, Hcredits, H1, H3. cbn [credits_requested app].
  by rewrite app_nil_r.
Qed.

End RunPhases.

Lemma credits_requested_per_row_witness :
  ∃ counts,
    length counts = length Sample.rows ∧
    Forall (fun c => 1 ≤ c ≤ 3)%nat counts ∧
    credits_requested (snd (main Sample.api_key Sample.server []))
      = concat (zip_with replicate counts (row_id <$> Sample.rows)).
Proof.
  apply (credits_requested_per_row Sample.server Sample.api_key [] SAVE_FILE Sample.rows).
  vm_compute. apply list_elem_of_here.
Defined.

(** ** A run without network *)

Section DeadNetwork.

Variable server : list event → request → response.

(** Every attempt fails, whatever the request and the history. *)
Hypothesis Hdead : ∀ h rq, success (server h rq) = None.

Lemma fetches_retries rq failures : fetches (length failures) (retries rq failures).
Proof.
  induction failures as [|rs failures [Hcsv Hn]]; [done|].
  split; [done|]. cbn. by rewrite <- Hn.
Qed.

Lemma safe_get_dead s url params :
  spec (safe_get server s url params)
    (fun data es => data = PNone ∧ fetches 3 es) (fun _ => False).
Proof.
  intros h.
  destruct (safe_get_attempts_run server 3 s url params h)
    as (failures & Hfail & [(data & Hlen & Hrun) | [Hlen Hrun]]).
  - pose proof (safe_get_attempts_served server 3 s url params h) as Hserved.
    rewrite Hrun in Hserved. cbn [snd] in Hserved. exfalso. clear Hrun Hfail Hlen.
    revert h Hserved. induction failures as [|rs failures IH]; intros h Hserved.
    + cbn in Hserved. destruct Hserved as [Heq _].
      specialize (Hdead h (Request s url params 15)). rewrite <- Heq in Hdead.
      cbn in Hdead. by rewrite bool_decide_eq_true_2 in Hdead.
    + cbn in Hserved. destruct Hserved as (_ & _ & Hserved). by eapply IH.
  - unfold safe_get. rewrite Hrun. split; [done|]. rewrite <- Hlen.
    apply fetches_retries.
Qed.

Lemma get_genres_dead s :
  spec (get_genres server s)
    (fun genre_map es => genre_map = ∅ ∧ fetches 3 es) (fun _ => False).
Proof.
  unfold get_genres. eapply spec_bind; [apply safe_get_dead|].
  intros data es [-> Hes]. cbn [truthy]. apply spec_ret. by rewrite app_nil_r.
Qed.

Lemma get_movies_from_endpoint_dead s endpoint pages :
  0 < pages →
  spec (get_movies_from_endpoint server s endpoint pages)
    (fun movies es => movies = [] ∧ fetches 3 es) (fun _ => False).
Proof.
  intros Hpos. unfold get_movies_from_endpoint, py_range.
  rewrite seqZ_cons by lia. cbn [get_movies_pages].
  eapply spec_bind; [apply safe_get_dead|].
  intros data es [-> Hes]. cbn [truthy]. apply spec_ret. by rewrite app_nil_r.
Qed.

Lemma collect_dead s endpoints :
  spec (collect server s endpoints [] ∅)
    (fun st es => st = ([], ∅) ∧ fetches (3 * length endpoints) es) (fun _ => False).
Proof.
  induction endpoints as [|endpoint endpoints IH]; [by apply spec_ret|].
  cbn [collect]. unfold print at 1.
  apply (spec_bind _ _ (fun _ es => fetches 0 es)); [by apply spec_emit|].
  intros _ es0 Hes0.
  eapply spec_bind; [by apply get_movies_from_endpoint_dead|].
  intros movies es1 [-> Hes1]. cbn [dedup]. unfold lift at 1.
  apply (spec_bind _ _ (fun st es => st = ([], ∅) ∧ fetches 0 es)); [by apply spec_lift|].
  intros st es2 [-> Hes2]. cbn [fst snd].
  eapply spec_weaken; [exact IH | | done].
  intros st es3 [-> Hes3]. split; [done|].
  replace (3 * length (endpoint :: endpoints))%nat
    with (0 + (3 + (0 + 3 * length endpoints)))%nat by (cbn [length]; lia).
  by repeat apply fetches_app.
Qed.

(** X18.  With a credential that passes the check and a network on
    which every attempt fails, a run does not raise: it makes 15
    requests (three for the genre list, three for the first page of
    each of the four listings), fetches no credits, and ends normally
    after writing a table without rows to [SAVE_FILE], over whatever
    the file held. *)
Theorem main_without_network k h :
  k ≠ "" → k ≠ "YOUR_API_KEY_HERE" →
  let run := main (Some k) server h in
  fst run = Ok () ∧
  csv_writes (snd run) = [(SAVE_FILE, [])] ∧
  length (requests (snd run)) = 15%nat ∧
  credits_requested (snd run) = [].
Proof.
  intros Hempty Hplace.
  assert (Hspec : spec (main (Some k) server)
    (fun _ es => csv_writes es = [(SAVE_FILE, [])] ∧
                 length (requests es) = 15%nat ∧ credits_requested es = [])
    (fun _ => False)).
  { unfold main. rewrite !bool_decide_eq_false_2 by done. cbn [orb]. cbv zeta.
    unfold print at 1.
    apply (spec_bind _ _ (fun _ es => ∃ text, es = [EvPrint text]));
      [apply spec_emit; eauto | intros _ es0 [text0 ->]].
    apply (spec_bind _ _ (fun genre_map es =>
        fetches 3 es ∧ only (fun rq => rq = genres_request (create_session (Some k))) es)).
    { intros h'. pose proof (get_genres_dead (create_session (Some k)) h') as H1.
      pose proof (get_genres_emits server
        (fun rq => rq = genres_request (create_session (Some k))) _ eq_refl h') as H2.
      by destruct (get_genres server _ h') as [[gm|e] es]; [destruct H1|]. }
    intros genre_map es1 [[Hcsv1 Hn1] Hes1]. unfold print at 1.
    apply (spec_bind _ _ (fun _ es => ∃ text, es = [EvPrint text]));
      [apply spec_emit; eauto | intros _ es2 [text2 ->]].
    apply (spec_bind _ _ (fun st es =>
        st = ([], ∅) ∧ fetches 12 es ∧
        only (fun rq => ∃ endpoint page, endpoint ∈ ENDPOINTS ∧
                rq = listing_request (create_session (Some k)) endpoint page) es)).
    { intros h'. pose proof (collect_dead (create_session (Some k)) ENDPOINTS h') as H1.
      pose proof (collect_only server (create_session (Some k)) ENDPOINTS [] ∅ h') as H2.
      by destruct (collect server _ ENDPOINTS [] ∅ h') as [[st|e] es]; [destruct H1|]. }
    intros st es3 (-> & [Hcsv3 Hn3] & Hes3). cbn [fst length build_rows].
    unfold print at 1.
    apply (spec_bind _ _ (fun _ es => ∃ text, es = [EvPrint text]));
      [apply spec_emit; eauto | intros _ es4 [text4 ->]].
    apply (spec_bind _ _ (fun rows es => rows = [] ∧ es = []));
      [by apply spec_ret | intros rows es5 [-> ->]].
    apply (spec_bind _ _ (fun _ es => es = [EvToCsv SAVE_FILE []]));
      [by apply spec_emit | intros _ es6 ->].
    apply spec_emit.
    assert (H1 : credits_requested es1 = []).
    { eapply only_credits_requested; [|exact Hes1]. by intros rq ->. }
    assert (H3 : credits_requested es3 = []).
    { eapply only_credits_requested; [|exact Hes3].
      by intros rq (endpoint & page & _ & ->). }
    rewrite !csv_writes_app, !requests_app, !length_app, !credits_requested_app.
    rewrite Hcsv1, Hcsv3, Hn1, Hn3, H1, H3. done. }
  cbv zeta. specialize (Hspec h).
  by destruct (main (Some k) server h) as [[[]|e] es].
Qed.

End DeadNetwork.

Lemma main_without_network_witness :
  let run := main (Some "secret") Scenario.dead [] in
  fst run = Ok () ∧
  csv_writes (snd run) = [(SAVE_FILE, [])] ∧
  length (requests (snd run)) = 15%nat ∧
  credits_requested (snd run) = [].
Proof.
  apply (main_without_network Scenario.dead (fun _ _ => eq_refl) "secret" []);
    discriminate.
Defined.

(** ** The order of the requests *)

Lemma grouped_nil s endpoints : grouped s endpoints [].
Proof.
  exists (replicate (length endpoints) []). split.
  - induction endpoints as [|endpoint endpoints IH]; constructor; [constructor | done].
  - induction endpoints as [|endpoint endpoints IH]; [done | exact IH].
Qed.

Lemma grouped_cons s endpoint endpoints group rqs :
  Forall (fun rq => ∃ page, rq = listing_request s endpoint page) group →
  grouped s endpoints rqs →
  grouped s (endpoint :: endpoints) (group ++ rqs).
Proof.
  intros Hgroup (groups & Hall & ->). exists (group :: groups).
  split; [by constructor | done].
Qed.

Lemma requests_print text es : requests ([EvPrint text] ++ es) = requests es.
Proof. reflexivity. Qed.

Ltac requests_norm :=
  rewrite ?requests_print, ?requests_app;
  change (requests []) with (@nil request);
  rewrite ?app_nil_r.

Section RequestOrder.

Variable server : list event → request → response.

Lemma collect_grouped s endpoints all_movies seen :
  emits (fun es => grouped s endpoints (requests es))
    (collect server s endpoints all_movies seen).
Proof.
  revert all_movies seen.
  induction endpoints as [|endpoint endpoints IH]; intros all_movies seen.
  - apply spec_ret. apply grouped_nil.
  - cbn [collect]. unfold print at 1.
    assert (Hone : ∀ es, only (fun rq => ∃ page, rq = listing_request s endpoint page) es →
                   grouped s (endpoint :: endpoints) (requests es)).
    { intros es Hes%only_requests. rewrite <- (app_nil_r (requests es)).
      apply grouped_cons; [done | apply grouped_nil]. }
    apply (spec_bind _ _ (fun _ es => es = [EvPrint
             [PStr "📥 Get data from "; PStr endpoint; PStr " ..."]]));
      [by apply spec_emit | intros _ es0 ->].
    apply (spec_bind _ _
             (fun _ es => only (fun rq => ∃ page, rq = listing_request s endpoint page) es)).
    { eapply spec_weaken; [apply get_movies_pages_only | done |].
      intros es Hes. rewrite requests_print. by apply Hone. }
    intros movies es1 Hes1.
    apply (spec_bind _ _ (fun _ es => es = [])).
    { apply spec_lift. destruct (dedup movies all_movies seen); [done|].
      rewrite app_nil_r, requests_print. by apply Hone. }
    intros st es2 ->.
    eapply spec_weaken; [apply IH | |]; cbv beta.
    + intros _ es3 Hes3. rewrite requests_print, app_nil_l, requests_app.
      apply grouped_cons; [by apply only_requests | done].
    + intros es3 Hes3. rewrite requests_print, app_nil_l, requests_app.
      apply grouped_cons; [by apply only_requests | done].
Qed.

Lemma phased_intro s es1 es2 es3 es :
  only (fun rq => rq = genres_request s) es1 →
  grouped s ENDPOINTS (requests es2) →
  Forall (fun rq => ∃ movie_id, rq = credits_request s movie_id) (requests es3) →
  requests es = requests es1 ++ requests es2 ++ requests es3 →
  phased s es.
Proof.
  intros H1%only_requests H2 H3 Heq. by exists (requests es1), (requests es2), (requests es3).
Qed.

(** X19.  In every run the requests come in the order of the phases:
    first those for the genre list, then the page requests, grouped by
    endpoint in the configured order (all of an endpoint's pages before
    the next endpoint's first), then those for credits.  No listing is
    requested once the first credits request is made, and the genre
    list is not requested again. *)
Theorem main_requests_in_phases API_KEY h :
  phased (create_session API_KEY) (snd (main API_KEY server h)).
Proof.
  set (s := create_session API_KEY).
  assert (Hspec : emits (phased s) (main API_KEY server)).
  { unfold main.
    destruct (match API_KEY with
              | Some k => bool_decide (k = "") || bool_decide (k = "YOUR_API_KEY_HERE")
              | None => true
              end).
    { apply spec_emit.
      by apply (phased_intro s [] [] []); [constructor | apply grouped_nil | constructor |]. }
    cbv zeta. fold s. unfold print at 1.
    apply (spec_bind _ _ (fun _ es => ∃ text, es = [EvPrint text]));
      [apply spec_emit; eauto | intros _ es0 [text0 ->]].
    apply (spec_bind _ _ (fun _ es => only (fun rq => rq = genres_request s) es)).
    { eapply spec_weaken;
        [by apply (get_genres_emits server (fun rq => rq = genres_request s) s) | done |].
      intros es1 Hes1. apply (phased_intro s es1 [] []);
        [done | apply grouped_nil | constructor | by requests_norm]. }
    intros genre_map es1 Hes1. unfold print at 1.
    apply (spec_bind _ _ (fun _ es => ∃ text, es = [EvPrint text])).
    { apply spec_emit; eauto. }
    intros _ es2 [text2 ->].
    apply (spec_bind _ _ (fun _ es => grouped s ENDPOINTS (requests es))).
    { eapply spec_weaken; [apply collect_grouped | done |].
      intros es3 Hes3. apply (phased_intro s es1 es3 []);
        [done | done | constructor | by requests_norm]. }
    intros st es3 Hes3. unfold print at 1.
    apply (spec_bind _ _ (fun _ es => ∃ text, es = [EvPrint text])).
    { apply spec_emit; eauto. }
    intros _ es4 [text4 ->].
    assert (Hrows : ∀ es5, only (fun rq => ∃ movie_id, rq = credits_request s movie_id) es5 →
              ∀ tail, requests tail = [] →
              phased s ([EvPrint text0] ++ es1 ++ [EvPrint text2] ++ es3 ++
                        [EvPrint text4] ++ es5 ++ tail)).
    { intros es5 Hes5%only_requests tail Htail.
      apply (phased_intro s es1 es3 es5); [done..|].
      requests_norm. by rewrite Htail, app_nil_r. }
    apply (spec_bind _ _
             (fun _ es => only (fun rq => ∃ movie_id, rq = credits_request s movie_id) es)).
    { eapply spec_weaken;
        [apply (build_rows_emits server
                  (fun rq => ∃ movie_id, rq = credits_request s movie_id)); eauto
        | done |].
      intros es5 Hes5. rewrite <- (app_nil_r es5). by apply Hrows. }
    intros rows es5 Hes5.
    apply (spec_bind _ _ (fun _ es => es = [EvToCsv SAVE_FILE rows]));
      [by apply spec_emit | intros _ es6 ->].
    apply spec_emit. by apply Hrows. }
  specialize (Hspec h). by destruct (main API_KEY server h) as [[[]|e] es].
Qed.

End RequestOrder.
